(** * Email verification engine: syntax validator, MX resolver, SMTP probe
      and the per-address orchestrator.

    Shallow embedding of [email_verifier.py] and of the verification loop of
    [app.py] ([verify_emails], the body of [for row in reader]).

    - A Python [str] is a list of characters ([list ascii], code points
      below 256; every character class of the validator is ASCII, so wider
      code points behave like any other rejected character).
    - Integers ([int]) are [Z].
    - Network and DNS calls are primitive operations of an abstract world
      [W]; the model threads the world and a trace of the calls made through
      a state-and-exception monad, so that "which hosts were contacted" is a
      statement about the trace.
    - The pattern of [check_syntax] is an abstract syntax tree of the
      regular expression, run by a matcher with the semantics of [re.match]. *)

From Stdlib Require Import String Ascii ZArith Lia Bool Arith List.
From Stdlib Require Import Sorted Permutation.
Import ListNotations.

Set Implicit Arguments.

(* ================================================================= *)
(** ** Strings *)

Definition str := list ascii.

(** A string literal of the source, ['...'], is written [s!"..."]. *)
Definition lit (s : string) : str := list_ascii_of_string s.
Notation "'s!' x" := (lit x%string) (at level 1, x at level 0, format "'s!' x").

(** The newline character, [\n]. *)
Definition LF : ascii := ascii_of_nat 10.

Definition str_eqb (a b : str) : bool :=
  if list_eq_dec ascii_dec a b then true else false.

(** [s.split(sep)] for a one-character separator: never the empty list. *)
Fixpoint split_on (sep : ascii) (s : str) : list str :=
  match s with
  | [] => [[]]
  | c :: s' =>
      if Ascii.eqb c sep then [] :: split_on sep s'
      else match split_on sep s' with
           | p :: ps => (c :: p) :: ps
           | [] => [[c]]
           end
  end.

(** [s.split(sep, 1)]: at most one split, at the first separator. *)
Fixpoint split_first (sep : ascii) (s : str) : list str :=
  match s with
  | [] => [[]]
  | c :: s' =>
      if Ascii.eqb c sep then [[]; s']
      else match split_first sep s' with
           | p :: ps => (c :: p) :: ps
           | [] => [[c]]
           end
  end.

(** [s.rstrip(c)] for a one-character set: every trailing [c] is removed. *)
Fixpoint rstrip (c : ascii) (s : str) : str :=
  match s with
  | [] => []
  | x :: s' =>
      match rstrip c s' with
      | [] => if Ascii.eqb x c then [] else [x]
      | r => x :: r
      end
  end.

(** [str.isspace] on one character below code point 256: tab to carriage
    return, the four separators 28..31, space, NEL (133) and the
    non-breaking space (160). *)
Definition is_space (c : ascii) : bool :=
  let n := nat_of_ascii c in
  ((9 <=? n) && (n <=? 13)) || ((28 <=? n) && (n <=? 32))
  || (n =? 133) || (n =? 160).

Fixpoint lstrip_space (s : str) : str :=
  match s with
  | [] => []
  | c :: s' => if is_space c then lstrip_space s' else s
  end.

Fixpoint rstrip_space (s : str) : str :=
  match s with
  | [] => []
  | x :: s' =>
      match rstrip_space s' with
      | [] => if is_space x then [] else [x]
      | r => x :: r
      end
  end.

(** [s.strip()] *)
Definition strip (s : str) : str := rstrip_space (lstrip_space s).

(** The part of [s] after its last [sep], if [s] has one (the spec's
    decomposition of an address: "split on the last [@]"). *)
Fixpoint after_last (sep : ascii) (s : str) : option str :=
  match s with
  | [] => None
  | c :: s' =>
      match after_last sep s' with
      | Some d => Some d
      | None => if Ascii.eqb c sep then Some s' else None
      end
  end.

(** [sep.join(parts)] *)
Fixpoint join (sep : ascii) (parts : list str) : str :=
  match parts with
  | [] => []
  | [p] => p
  | p :: ps => p ++ sep :: join sep ps
  end.

(* ================================================================= *)
(** ** Regular expressions with the semantics of [re.match] *)

(** An item of a character class [[...]]. *)
Inductive cls_item : Type :=
| Range (lo hi : ascii)     (* lo-hi *)
| One (c : ascii).

Definition Chars (s : string) : list cls_item := map One (list_ascii_of_string s).

Definition in_item (c : ascii) (i : cls_item) : bool :=
  match i with
  | Range lo hi => (nat_of_ascii lo <=? nat_of_ascii c) && (nat_of_ascii c <=? nat_of_ascii hi)
  | One x => Ascii.eqb c x
  end.

Definition in_cls (items : list cls_item) (c : ascii) : bool :=
  existsb (in_item c) items.

Inductive re : Type :=
| Bol                                     (* ^ *)
| Eol                                     (* $ *)
| Lit (c : ascii)                         (* one literal character *)
| Cls (items : list cls_item)             (* [...] *)
| Cat (r1 r2 : re)                        (* r1 r2 *)
| Rep (r : re) (lo : nat) (hi : option nat).   (* r{lo,hi}; no hi: unbounded *)

Definition Opt (r : re) : re := Rep r 0 (Some 1).     (* (?:r)? *)
Definition Plus (r : re) : re := Rep r 1 None.        (* r+ *)

(** [iter step lo cnt t]: the positions reached from [t] by between [lo]
    and [cnt] successive runs of [step], longest first (greedy). *)
Fixpoint iter (step : str -> list str) (lo cnt : nat) (t : str) : list str :=
  match cnt with
  | 0 => if lo =? 0 then [t] else []
  | S cnt' =>
      flat_map (iter step (pred lo) cnt') (step t)
      ++ (if lo =? 0 then [t] else [])
  end.

(** [run n r t]: every position (as the rest of the subject) at which a
    match of [r] that starts at [t] can end; [n] is the subject's length, so
    that [length t = n] says "at the start of the subject".

    Without [re.MULTILINE], [^] matches at the start of the subject only and
    [$] matches at its end and just before a newline that is its last
    character. An unbounded repetition never needs more than
    [lo + length t] rounds: a round beyond the first [lo] that consumes
    nothing can be left out. *)
Fixpoint run (n : nat) (r : re) (t : str) : list str :=
  match r with
  | Bol => if length t =? n then [t] else []
  | Eol =>
      match t with
      | [] => [t]
      | [c] => if Ascii.eqb c LF then [t] else []
      | _ => []
      end
  | Lit c =>
      match t with
      | c' :: t' => if Ascii.eqb c' c then [t'] else []
      | [] => []
      end
  | Cls items =>
      match t with
      | c' :: t' => if in_cls items c' then [t'] else []
      | [] => []
      end
  | Cat r1 r2 => flat_map (run n r2) (run n r1 t)
  | Rep r lo hi =>
      iter (run n r) lo (match hi with Some h => h | None => lo + length t end) t
  end.

(** [re.match(r, s) is not None] *)
Definition re_match (r : re) (s : str) : bool :=
  match run (length s) r s with
  | [] => false
  | _ :: _ => true
  end.

(* ================================================================= *)
(** ** [check_syntax] *)

(** [[a-zA-Z0-9.!#$%&'*+/=?^_`{|}~-]] *)
Definition local_cls : list cls_item :=
  [Range "a" "z"; Range "A" "Z"; Range "0" "9"] ++ Chars ".!#$%&'*+/=?^_`{|}~-".

(** [[A-Za-z0-9]] *)
Definition alnum_cls : list cls_item :=
  [Range "A" "Z"; Range "a" "z"; Range "0" "9"].

(** [[A-Za-z0-9-]] *)
Definition alnum_hyphen_cls : list cls_item :=
  [Range "A" "Z"; Range "a" "z"; Range "0" "9"; One "-"].

(** [[A-Za-z0-9](?:[A-Za-z0-9-]{0,61}[A-Za-z0-9])?] *)
Definition label_re : re :=
  Cat (Cls alnum_cls)
      (Opt (Cat (Rep (Cls alnum_hyphen_cls) 0 (Some 61)) (Cls alnum_cls))).

(** The pattern between the anchors:
    local part, [@], a label, then one or more [\.] label. *)
Definition address_re : re :=
  Cat (Plus (Cls local_cls))
      (Cat (Lit "@")
           (Cat label_re (Plus (Cat (Lit ".") label_re)))).

(** The whole pattern of [check_syntax], [^ ... $]. *)
Definition email_regex : re := Cat Bol (Cat address_re Eol).

Definition check_syntax (email : str) : bool := re_match email_regex email.

(* ================================================================= *)
(** ** The spec's address shape (section 4.1), stated from its words *)

Definition is_alnum (c : ascii) : bool :=
  let n := nat_of_ascii c in
  ((65 <=? n) && (n <=? 90)) || ((97 <=? n) && (n <=? 122))
  || ((48 <=? n) && (n <=? 57)).

(** letters, digits, [. ! # $ % & ' * + / = ? ^ _ ` { | } ~ -] *)
Definition is_local_char (c : ascii) : bool :=
  is_alnum c || existsb (Ascii.eqb c) (list_ascii_of_string ".!#$%&'*+/=?^_`{|}~-").

Definition is_alnum_or_hyphen (c : ascii) : bool :=
  is_alnum c || Ascii.eqb c "-".

(** A domain label: starts and ends with an alphanumeric character, its
    interior characters are alphanumeric or hyphens, length at most 63. *)
Definition label_ok (l : str) : bool :=
  match l with
  | [] => false
  | c :: rest =>
      is_alnum c && is_alnum (last l c)
      && forallb is_alnum_or_hyphen (removelast rest)
      && (length l <=? 63)
  end.

(** One or more local-part characters, [@], then dot-separated labels with
    at least one separator. *)
Definition address_shape (s : str) : Prop :=
  exists (local : str) (labels : list str),
    s = local ++ "@"%char :: join "." labels
    /\ local <> []
    /\ forallb is_local_char local = true
    /\ 2 <= length labels
    /\ forallb label_ok labels = true.

(* ================================================================= *)
(** ** Exceptions, outcomes and the trace of calls *)

(** The class of a raised exception, as far as the [except] clauses of the
    source tell classes apart. [OtherException] is any other subclass of
    [Exception] ([ValueError], [UnicodeError], ...). What is raised outside
    [Exception] (an interrupt, [SystemExit]) is not modelled. *)
Inductive exn : Type :=
| SMTPServerDisconnected
| SMTPResponseException
| SMTPHeloError
| SMTPConnectError
| SMTPException            (* another subclass of smtplib.SMTPException *)
| socket_error             (* OSError that is no SMTPException *)
| socket_timeout
| NoAnswer
| NXDOMAIN
| Timeout                  (* dns.resolver.Timeout *)
| IndexError
| OtherException.

(** The classes named in [except] clauses. *)
Inductive pyclass : Type :=
| C_SMTPServerDisconnected
| C_SMTPResponseException
| C_SMTPHeloError
| C_SMTPConnectError
| C_SMTPException
| C_socket_error
| C_socket_timeout
| C_NoAnswer
| C_NXDOMAIN
| C_Timeout
| C_Exception.

(** [isinstance(e, c)], with smtplib's hierarchy: [SMTPHeloError] and
    [SMTPConnectError] derive from [SMTPResponseException], every SMTP
    exception from [SMTPException], [SMTPException] and [socket.timeout]
    from [OSError] (which [socket.error] names). *)
Definition isinstance (e : exn) (c : pyclass) : bool :=
  match c, e with
  | C_Exception, _ => true
  | C_SMTPServerDisconnected, SMTPServerDisconnected => true
  | C_SMTPResponseException, (SMTPResponseException | SMTPHeloError | SMTPConnectError) => true
  | C_SMTPHeloError, SMTPHeloError => true
  | C_SMTPConnectError, SMTPConnectError => true
  | C_SMTPException, (SMTPServerDisconnected | SMTPResponseException | SMTPHeloError
                      | SMTPConnectError | SMTPException) => true
  | C_socket_error, (SMTPServerDisconnected | SMTPResponseException | SMTPHeloError
                     | SMTPConnectError | SMTPException | socket_error | socket_timeout) => true
  | C_socket_timeout, socket_timeout => true
  | C_NoAnswer, NoAnswer => true
  | C_NXDOMAIN, NXDOMAIN => true
  | C_Timeout, Timeout => true
  | _, _ => false
  end.

(** [except (c1, c2, ...)] *)
Definition catches (classes : list pyclass) (e : exn) : bool :=
  existsb (isinstance e) classes.

(** A transport-level or protocol-level exception of the SMTP exchange:
    an [SMTPException] or a socket error. *)
Definition transport_or_protocol (e : exn) : bool :=
  catches [C_SMTPException; C_socket_error; C_socket_timeout] e.

Inductive outcome (A : Type) : Type :=
| Ok (a : A)
| Raise (e : exn).
Arguments Ok {A} a.
Arguments Raise {A} e.

(** The calls that leave the process. *)
Inductive event : Type :=
| EvGetfqdn
| EvResolveMX (name : str)
| EvConnect (host : str)
| EvEhlo (host : str)
| EvStarttls (host : str)
| EvHelo (host : str) (name : str)
| EvMail (host : str) (sender : str)
| EvRcpt (host : str) (address : str)
| EvQuit (host : str).

(** One MX answer: [rdata.preference] and [str(rdata.exchange)]. *)
Record rdata : Type := { preference : Z; exchange : str }.

(** The primitive operations, on a world [W]. An SMTP connection is named by
    the host it was opened to. The integer results are reply codes; [ehlo]
    also gives the extensions the server announced (lower case), which
    [has_extn] reads. [Resolver] is [dns.resolver.Resolver()]: it reads the
    resolver configuration of the system, sends nothing and changes
    nothing, and raises when there is no usable configuration. *)
Record Net (W : Type) : Type := {
  Resolver : W -> outcome unit;
  getfqdn : W -> outcome str * W;
  resolve_MX : str -> W -> outcome (list rdata) * W;
  SMTP : str -> W -> outcome unit * W;
  ehlo : str -> W -> outcome (Z * list str) * W;
  starttls : str -> W -> outcome unit * W;
  helo : str -> str -> W -> outcome Z * W;
  mail : str -> str -> W -> outcome Z * W;
  rcpt : str -> str -> W -> outcome Z * W;
  quit : str -> W -> outcome unit * W
}.

Record state (W : Type) : Type := { world : W; trace : list event }.

(** The hosts a trace connected to, in order. *)
Fixpoint connects (tr : list event) : list str :=
  match tr with
  | [] => []
  | EvConnect h :: tr' => h :: connects tr'
  | _ :: tr' => connects tr'
  end.

(** The names a trace asked the DNS for, in order. *)
Fixpoint lookups (tr : list event) : list str :=
  match tr with
  | [] => []
  | EvResolveMX d :: tr' => d :: lookups tr'
  | _ :: tr' => lookups tr'
  end.

(** ** The state-and-exception monad *)

Definition M (W A : Type) : Type := state W -> outcome A * state W.

Definition ret {W A} (a : A) : M W A := fun st => (Ok a, st).

Definition bind {W A B} (m : M W A) (k : A -> M W B) : M W B :=
  fun st =>
    match m st with
    | (Ok a, st') => k a st'
    | (Raise e, st') => (Raise e, st')
    end.

(** The first clause whose classes catch [e]. *)
Fixpoint handler_for {W A} (clauses : list (list pyclass * M W A)) (e : exn)
  : option (M W A) :=
  match clauses with
  | [] => None
  | (classes, h) :: rest =>
      if catches classes e then Some h else handler_for rest e
  end.

(** [try: body  except C1: h1  except C2: h2 ...] *)
Definition try_except {W A} (body : M W A) (clauses : list (list pyclass * M W A))
  : M W A :=
  fun st =>
    match body st with
    | (Ok a, st') => (Ok a, st')
    | (Raise e, st') =>
        match handler_for clauses e with
        | Some h => h st'
        | None => (Raise e, st')
        end
    end.

(** A look at the world that sends nothing: no event, no change. *)
Definition consult {W A} (op : W -> outcome A) : M W A :=
  fun st => (op (world st), st).

(** A primitive call: it is recorded, then the world answers. *)
Definition call {W A} (ev : event) (op : W -> outcome A * W) : M W A :=
  fun st =>
    let (r, w') := op (world st) in
    (r, {| world := w'; trace := trace st ++ [ev] |}).

Declare Scope monad_scope.
Delimit Scope monad_scope with monad.
Notation "x <- c1 ;; c2" := (bind c1 (fun x => c2))
  (at level 61, c1 at next level, right associativity) : monad_scope.
Notation "' pat <- c1 ;; c2" := (bind c1 (fun x => match x with pat => c2 end))
  (at level 61, pat pattern, c1 at next level, right associativity) : monad_scope.
Notation "c1 ;; c2" := (bind c1 (fun _ => c2))
  (at level 61, right associativity) : monad_scope.

(** How one round of a [for] loop ends. *)
Inductive flow (A : Type) : Type :=
| Return (a : A)
| Continue.
Arguments Return {A} a.
Arguments Continue {A}.

(** [x or d] on strings *)
Definition or_default (x d : str) : str :=
  match x with [] => d | _ :: _ => x end.

(* ================================================================= *)
(** ** Result types *)

Inductive MailboxStatus : Type := Exists | DoesNotExist | Unverifiable.

Inductive OverallStatus : Type := Valid | InvalidSyntax | RiskyOrInvalid.

Definition MailboxStatus_eqb (a b : MailboxStatus) : bool :=
  match a, b with
  | Exists, Exists | DoesNotExist, DoesNotExist | Unverifiable, Unverifiable => true
  | _, _ => false
  end.

(** The strings the source uses for the two enumerations. *)
Definition MailboxStatus_str (s : MailboxStatus) : str :=
  match s with
  | Exists => s!"Exists"
  | DoesNotExist => s!"DoesNotExist"
  | Unverifiable => s!"Unverifiable"
  end.

Definition OverallStatus_str (s : OverallStatus) : str :=
  match s with
  | Valid => s!"Valid"
  | InvalidSyntax => s!"Invalid Syntax"
  | RiskyOrInvalid => s!"Risky / Invalid"
  end.

(** One row of [results]. *)
Record VerificationResult : Type := {
  Email : str;
  SyntaxValid : bool;
  DomainHasMX : bool;
  MailboxExists : MailboxStatus;
  OverallStatus_of : OverallStatus
}.

(* ================================================================= *)
(** ** The engine, over a world [W] with its primitive operations *)

(** [code in (250, 251)] ... the classification of the RCPT reply code
    ([check_smtp], "Interpret response codes"). *)
Definition classify (code : Z) : MailboxStatus :=
  if ((code =? 250) || (code =? 251))%Z then Exists
  else if ((code =? 550) || (code =? 551) || (code =? 553))%Z then DoesNotExist
  else if ((400 <=? code) && (code <? 500))%Z then Unverifiable
  else Unverifiable.

(** [server.has_extn(name)] on the announced extensions. *)
Definition has_extn (features : list str) (name : str) : bool :=
  existsb (str_eqb name) features.

(** The loop of [check_mx_records] that builds [mx_entries]. *)
Fixpoint mx_entries (answers : list rdata) : list (Z * str) :=
  match answers with
  | [] => []
  | r :: rest =>
      let exchange := rstrip "." (exchange r) in
      let preference := preference r in
      if str_eqb exchange [] || str_eqb exchange s!"."
      then mx_entries rest
      else (preference, exchange) :: mx_entries rest
  end.

(** [list.sort(key=lambda x: x[0])]: Python's sort is stable; it is
    modelled by a stable insertion sort on the key. *)
Fixpoint insert_by_key (x : Z * str) (l : list (Z * str)) : list (Z * str) :=
  match l with
  | [] => [x]
  | y :: l' =>
      if (fst x <=? fst y)%Z then x :: y :: l' else y :: insert_by_key x l'
  end.

Fixpoint sort_by_key (l : list (Z * str)) : list (Z * str) :=
  match l with
  | [] => []
  | x :: l' => insert_by_key x (sort_by_key l')
  end.

(** What [check_mx_records] returns once the answers are in. *)
Definition mx_hosts (answers : list rdata) : option (list str) :=
  match mx_entries answers with
  | [] => None
  | entries => Some (map snd (sort_by_key entries))
  end.

Section Engine.

Variable W : Type.
Variable net : Net W.

(** [domain.encode("idna").decode("ascii")]: a pure codec, [None] when it
    raises. *)
Variable idna : str -> option str.

Local Open Scope monad_scope.

Definition _normalize_domain (domain : str) : str :=
  match idna domain with
  | Some a => a
  | None => domain
  end.

Definition check_mx_records (domain : str) : M W (option (list str)) :=
  try_except
    (consult (Resolver net) ;;
     let ascii_domain := _normalize_domain domain in
     answers <- call (EvResolveMX ascii_domain) (resolve_MX net ascii_domain) ;;
     ret (mx_hosts answers))
    [ ([C_NoAnswer; C_NXDOMAIN; C_Timeout], ret None);
      ([C_Exception], ret None) ].

(** [try: server.quit()  except Exception: pass] *)
Definition quit_quietly (server : str) : M W unit :=
  try_except (call (EvQuit server) (quit net server)) [ ([C_Exception], ret tt) ].

(** The body of the inner [try] of [check_smtp], from [server.ehlo()] to the
    [return] of the classification. *)
Definition dialogue (server email local_helo : str) : M W MailboxStatus :=
  '(code, features) <- call (EvEhlo server) (ehlo net server) ;;
  (if ((200 <=? code) && (code <? 300))%Z && has_extn features s!"starttls"
   then try_except
          (call (EvStarttls server) (starttls net server) ;;
           call (EvEhlo server) (ehlo net server) ;;
           ret tt)
          [ ([C_SMTPException], ret tt) ]
   else call (EvHelo server local_helo) (helo net server local_helo) ;; ret tt) ;;
  let sender :=
    s!"no-reply@" ++ or_default (last (split_first "." local_helo) []) s!"localhost" in
  call (EvMail server sender) (mail net server sender) ;;
  code <- call (EvRcpt server email) (rcpt net server email) ;;
  quit_quietly server ;;
  ret (classify code).

(** One round of [for mx_host in mx_servers]: the outer [try] with the
    connection, the inner [try] with the dialogue, and their [except]
    clauses, each of which ends the round with [continue]. What the clauses
    [print] goes to standard output, which is no part of the state. *)
Definition attempt (email local_helo mx_host : str) : M W (flow MailboxStatus) :=
  try_except
    (call (EvConnect mx_host) (SMTP net mx_host) ;;
     let server := mx_host in
     try_except
       (status <- dialogue server email local_helo ;; ret (Return status))
       [ ([C_SMTPServerDisconnected; C_SMTPResponseException; C_SMTPHeloError],
          quit_quietly server ;; ret Continue);
         ([C_socket_timeout; C_socket_error],
          quit_quietly server ;; ret Continue);
         ([C_Exception],
          quit_quietly server ;; ret Continue) ])
    [ ([C_SMTPConnectError; C_SMTPException; C_socket_error], ret Continue) ].

(** The [for] loop of [check_smtp] and the [return "Unverifiable"] after it. *)
Fixpoint try_hosts (email local_helo : str) (mx_servers : list str)
  : M W MailboxStatus :=
  match mx_servers with
  | [] => ret Unverifiable
  | mx_host :: rest =>
      r <- attempt email local_helo mx_host ;;
      match r with
      | Return status => ret status
      | Continue => try_hosts email local_helo rest
      end
  end.

(** [socket.getfqdn() or 'localhost'], [localhost] when it raises. *)
Definition get_local_helo : M W str :=
  try_except
    (h <- call EvGetfqdn (getfqdn net) ;; ret (or_default h s!"localhost"))
    [ ([C_Exception], ret s!"localhost") ].

Definition check_smtp (email : str) (mx_servers : list str) : M W MailboxStatus :=
  match mx_servers with
  | [] => ret Unverifiable
  | _ :: _ =>
      local_helo <- get_local_helo ;;
      try_hosts email local_helo mx_servers
  end.

(** [lst[i]], raising [IndexError] out of range. *)
Definition index {A} (l : list A) (i : nat) : M W A :=
  fun st =>
    match nth_error l i with
    | Some x => (Ok x, st)
    | None => (Raise IndexError, st)
    end.

(** The body of [for row in reader] in [verify_emails]: from the raw
    [Email] cell to the row appended to [results]. *)
Definition verify_row (cell : str) : M W VerificationResult :=
  let email := strip cell in
  let syntax_valid := check_syntax email in
  if syntax_valid then
    domain <- index (split_on "@" email) 1 ;;
    mx_records <- check_mx_records domain ;;
    '(domain_has_mx, mailbox_exists) <-
      match mx_records with
      | Some ((_ :: _) as hosts) =>
          status <- check_smtp email hosts ;; ret (true, status)
      | _ => ret (false, Unverifiable)
      end ;;
    let overall_status :=
      if domain_has_mx && MailboxStatus_eqb mailbox_exists Exists
      then Valid else RiskyOrInvalid in
    ret {| Email := email; SyntaxValid := syntax_valid;
           DomainHasMX := domain_has_mx; MailboxExists := mailbox_exists;
           OverallStatus_of := overall_status |}
  else
    ret {| Email := email; SyntaxValid := syntax_valid;
           DomainHasMX := false; MailboxExists := Unverifiable;
           OverallStatus_of := InvalidSyntax |}.

(** The statements of one round without their [except] clauses: the
    connection, then the dialogue. The round raises what this raises, before
    any clause has caught it. *)
Definition session (email local_helo mx_host : str) : M W MailboxStatus :=
  call (EvConnect mx_host) (SMTP net mx_host) ;;
  dialogue mx_host email local_helo.

(** The state in which the loop goes on after the round with [mx_host]. *)
Definition after_round (email local_helo mx_host : str) (st : state W) : state W :=
  snd (attempt email local_helo mx_host st).

(** [skipped pre st st']: from [st], the round of every host of [pre] ended
    with [continue], and the loop is then in [st']. *)
Inductive skipped (email local_helo : str) : list str -> state W -> state W -> Prop :=
| skipped_nil st : skipped email local_helo [] st st
| skipped_cons h hs st st1 st2 :
    attempt email local_helo h st = (Ok Continue, st1) ->
    skipped email local_helo hs st1 st2 ->
    skipped email local_helo (h :: hs) st st2.

(** [all_raise hosts st]: from [st], the exchange with every host of [hosts],
    tried in order, raises a transport or protocol exception. *)
Inductive all_raise (email local_helo : str) : list str -> state W -> Prop :=
| all_raise_nil st : all_raise email local_helo [] st
| all_raise_cons h hs st e st1 :
    session email local_helo h st = (Raise e, st1) ->
    transport_or_protocol e = true ->
    all_raise email local_helo hs (after_round email local_helo h st) ->
    all_raise email local_helo (h :: hs) st.

End Engine.

(* ================================================================= *)
(** ** Auxiliary notions for the statements *)

(** The language of a pattern without anchors: the words it matches. *)
Fixpoint anchor_free (r : re) : bool :=
  match r with
  | Bol | Eol => false
  | Lit _ | Cls _ => true
  | Cat a b => anchor_free a && anchor_free b
  | Rep a _ _ => anchor_free a
  end.

Fixpoint lang (r : re) (w : str) : Prop :=
  match r with
  | Bol | Eol => False
  | Lit c => w = [c]
  | Cls items => exists c, w = [c] /\ in_cls items c = true
  | Cat a b => exists u v, w = u ++ v /\ lang a u /\ lang b v
  | Rep a lo hi =>
      exists ws, w = concat ws /\ Forall (lang a) ws /\ lo <= length ws
                 /\ match hi with Some h => length ws <= h | None => True end
  end.

(** The domain part of [address_re]. *)
Definition domain_re : re := Cat label_re (Plus (Cat (Lit ".") label_re)).

(** [s.endswith(c)] *)
Definition ends_with (c : ascii) (s : str) : bool :=
  match rev s with
  | x :: _ => Ascii.eqb x c
  | [] => false
  end.

(** [sep not in s] *)
Definition lacks (sep : ascii) (s : str) : bool :=
  forallb (fun c => negb (Ascii.eqb c sep)) s.

(** An event that is no DNS lookup. *)
Definition not_lookup (ev : event) : Prop :=
  match ev with
  | EvResolveMX _ => False
  | _ => True
  end.

(** An event of the SMTP exchange on the connection to [h], after the
    connection itself. *)
Definition session_event (h : str) (ev : event) : Prop :=
  match ev with
  | EvEhlo x | EvStarttls x | EvHelo x _ | EvMail x _ | EvRcpt x _ | EvQuit x => x = h
  | EvGetfqdn | EvResolveMX _ | EvConnect _ => False
  end.

(** [emits P m]: whatever [m] does, it only appends events that satisfy
    [P] to the trace. *)
Definition emits {W A} (P : event -> Prop) (m : M W A) : Prop :=
  forall st r st', m st = (r, st') ->
    exists evs, trace st' = trace st ++ evs /\ Forall P evs.

(** The spec's reading of the Null MX test (section 4.2, step 3): strip the
    trailing root-label dot, then compare with the empty name and with the
    root. *)
Definition strip_root_dot (s : str) : str :=
  match rev s with
  | "."%char :: r => rev r
  | _ => s
  end.

Definition null_exchange (s : str) : bool :=
  str_eqb (strip_root_dot s) [] || str_eqb (strip_root_dot s) s!".".

(** Ascending by preference. *)
Definition pref_le (a b : Z * str) : Prop := (fst a <= fst b)%Z.

(** The entries of a given preference, in their order. *)
Definition with_pref (p : Z) (l : list (Z * str)) : list (Z * str) :=
  filter (fun x => (fst x =? p)%Z) l.

(* ================================================================= *)
(** ** A scripted world for examples

    The world has no state of its own: every host and every name answers
    the same way each time. *)

Definition mx (p : Z) (host : string) : rdata :=
  {| preference := p; exchange := lit host |}.

Definition test_dns (name : str) : outcome (list rdata) :=
  if str_eqb name s!"good.test" then
    Ok [mx 20 "mx2.good.test."; mx 10 "mx1.good.test."; mx 10 "mx0.good.test."]
  else if str_eqb name s!"flaky.test" then
    Ok [mx 10 "down.test."; mx 20 "mx.flaky.test."]
  else if str_eqb name s!"grey.test" then
    Ok [mx 30 "mx1.good.test."; mx 10 "down.test."; mx 20 "mx.grey.test."]
  else if str_eqb name s!"dead.test" then
    Ok [mx 10 "down.test."; mx 20 "broken.test."]
  else if str_eqb name s!"gone.test" then
    Ok [mx 10 "mx.gone.test."]
  else if str_eqb name s!"nullmx.test" then
    Ok [mx 0 "."]
  else Raise NXDOMAIN.

Definition test_connect (host : str) : outcome unit :=
  if str_eqb host s!"down.test" then Raise socket_error else Ok tt.

Definition test_ehlo (host : str) : outcome (Z * list str) :=
  if str_eqb host s!"broken.test" then Raise SMTPServerDisconnected
  else if str_eqb host s!"mx.flaky.test" then Ok (250%Z, [s!"starttls"])
  else Ok (250%Z, []).

Definition test_rcpt (host : str) : outcome Z :=
  if str_eqb host s!"mx1.good.test" then Ok 250%Z
  else if str_eqb host s!"mx.flaky.test" then Ok 251%Z
  else if str_eqb host s!"mx.grey.test" then Ok 450%Z
  else Ok 550%Z.

Definition test_net : Net unit :=
  {| Resolver := fun w => Ok tt;
     getfqdn := fun w => (Ok s!"probe.example.org", w);
     resolve_MX := fun name w => (test_dns name, w);
     SMTP := fun host w => (test_connect host, w);
     ehlo := fun host w => (test_ehlo host, w);
     starttls := fun host w => (Raise SMTPException, w);
     helo := fun host name w => (Ok 250%Z, w);
     mail := fun host sender w => (Ok 250%Z, w);
     rcpt := fun host address w => (test_rcpt host, w);
     quit := fun host w => (Ok tt, w) |}.

Definition test_idna (domain : str) : option str := Some domain.

Definition start : state unit := {| world := tt; trace := [] |}.

(* ================================================================= *)
(** ** Further notions: the steps of one SMTP exchange *)

(** The address of [MAIL FROM]: [f"no-reply@{local_helo.split('.', 1)[-1] or
    'localhost'}"]. *)
Definition sender_for (local_helo : str) : str :=
  s!"no-reply@" ++ or_default (last (split_first "." local_helo) []) s!"localhost".

(** [200 <= code < 300 and server.has_extn('starttls')] *)
Definition offers_starttls (code : Z) (features : list str) : bool :=
  ((200 <=? code) && (code <? 300))%Z && has_extn features s!"starttls".

(** What may lie between the first EHLO and MAIL FROM in a trace: the TLS
    upgrade (with or without its second EHLO), or HELO. *)
Definition greeting_events (server local_helo : str) (code : Z) (features : list str)
    (evs : list event) : Prop :=
  if offers_starttls code features
  then evs = [EvStarttls server] \/ evs = [EvStarttls server; EvEhlo server]
  else evs = [EvHelo server local_helo].


(** An event of the exchange with [h] other than QUIT. *)
Definition before_quit (h : str) (ev : event) : Prop :=
  session_event h ev /\ ev <> EvQuit h.

(** The part of the dialogue from MAIL FROM on: [server.mail(sender)],
    [server.rcpt(email)], the quiet QUIT and the classification. *)
Definition exchange_tail {W} (net : Net W) (server email local_helo : str)
  : M W MailboxStatus :=
  bind (call (EvMail server (sender_for local_helo))
             (mail net server (sender_for local_helo))) (fun _ =>
  bind (call (EvRcpt server email) (rcpt net server email)) (fun code =>
  bind (quit_quietly net server) (fun _ =>
  ret (classify code)))).

(** A machine without a resolver configuration: [dns.resolver.Resolver()]
    raises; everything else is [test_net]. *)
Definition bare_net : Net unit :=
  {| Resolver := fun w => Raise OtherException;
     getfqdn := getfqdn test_net;
     resolve_MX := resolve_MX test_net;
     SMTP := SMTP test_net;
     ehlo := ehlo test_net;
     starttls := starttls test_net;
     helo := helo test_net;
     mail := mail test_net;
     rcpt := rcpt test_net;
     quit := quit test_net |}.

(** [c * n]: the character [c], [n] times. *)
Definition dots (n : nat) : str := repeat "."%char n.

(** A world in which connecting to [odd.test] raises an exception that is
    neither an SMTP exception nor a socket error (as [UnicodeError] from an
    over-long host label), and which is [test_net] otherwise. *)
Definition odd_connect (host : str) : outcome unit :=
  if str_eqb host s!"odd.test" then Raise OtherException else test_connect host.

Definition odd_dns (name : str) : outcome (list rdata) :=
  if str_eqb name s!"odd.test" then
    Ok [mx 10 "down.test."; mx 20 "odd.test."; mx 30 "mx1.good.test."]
  else test_dns name.

Definition odd_net : Net unit :=
  {| Resolver := Resolver test_net;
     getfqdn := getfqdn test_net;
     resolve_MX := fun name w => (odd_dns name, w);
     SMTP := fun host w => (odd_connect host, w);
     ehlo := ehlo test_net;
     starttls := starttls test_net;
     helo := helo test_net;
     mail := mail test_net;
     rcpt := rcpt test_net;
     quit := quit test_net |}.

(* ================================================================= *)
(** ** The upload route [verify_emails] of [app.py]

    The request is taken as Flask hands it over and the uploaded file as
    [csv.DictReader] reads it back: werkzeug's [secure_filename] is a
    parameter, and so are the header, the rows and the error (if any) that
    the reader meets. Saving, writing and removing files are operations of
    the world, recorded in a log of their own beside the network trace. *)

(** [s.startswith(p)] and [s.endswith(p)] *)
Fixpoint startswith (s p : str) : bool :=
  match p, s with
  | [], _ => true
  | c :: p', x :: s' => Ascii.eqb x c && startswith s' p'
  | _ :: _, [] => false
  end.

Definition endswith (s suffix : str) : bool := startswith (rev s) (rev suffix).

(** [os.path.join(a, b)] of [posixpath]. *)
Definition os_path_join (a b : str) : str :=
  match b with
  | "/"%char :: _ => b
  | _ => if str_eqb a [] || ends_with "/" a then a ++ b else a ++ "/"%char :: b
  end.

Definition UPLOAD_FOLDER : str := s!"uploads".

(** A dict with string keys, as an association list. *)
Fixpoint dict_get {V : Type} (d : list (str * V)) (k : str) : option V :=
  match d with
  | [] => None
  | (k', v) :: d' => if str_eqb k' k then Some v else dict_get d' k
  end.

(** A row as [csv.DictReader] yields it: a cell is [None] where the line
    had fewer fields than the header. *)
Definition csv_row : Type := list (str * option str).

(** The rows whose [Email] cell is a string, on which [row['Email'].strip()]
    returns. *)
Definition has_email_cell (row : csv_row) : bool :=
  match dict_get row s!"Email" with
  | Some (Some _) => true
  | _ => false
  end.

(** The uploaded file: its client-side name, and what the reader finds in
    it: [reader.fieldnames] ([None] for an empty file; reading the first
    line may raise), the rows it yields, and the exception that ends the
    iteration early, if one does. *)
Record upload : Type := {
  filename : str;
  csv_fieldnames : outcome (option (list str));
  csv_rows : list csv_row;
  csv_error : option exn
}.

(** What the view function returns: a text with a status code, the text of
    the 500 answer (which quotes the exception), or [send_file]. *)
Inductive response : Type :=
| Plain (body : str) (status : Z)
| ErrorOccurred (e : exn)
| SendFile (path download_name : str).

Inductive fs_event : Type :=
| FsSave (path : str)
| FsWrite (path : str) (table : list (list (str * str)))
| FsRemove (path : str).

Record Fs (W : Type) : Type := {
  file_save : str -> W -> outcome unit * W;
  write_rows : str -> list (list (str * str)) -> W -> outcome unit * W;
  os_remove : str -> W -> outcome unit * W
}.

(** A row of [results], as the dict of strings the source appends. *)
Definition report_row (r : VerificationResult) : list (str * str) :=
  [ (s!"Email", Email r);
    (s!"SyntaxValid", if SyntaxValid r then s!"Valid" else s!"Invalid");
    (s!"DomainHasMX", if DomainHasMX r then s!"True" else s!"False");
    (s!"MailboxExists", MailboxStatus_str (MailboxExists r));
    (s!"OverallStatus", OverallStatus_str (OverallStatus_of r)) ].

(** The state of a request: the network side and the log of file
    operations. *)
Record app_state (W : Type) : Type := { net_state : state W; disk : list fs_event }.

Definition App (W A : Type) : Type := app_state W -> outcome A * app_state W.

Definition aret {W A} (a : A) : App W A := fun st => (Ok a, st).

Definition araise {W A} (e : exn) : App W A := fun st => (Raise e, st).

Definition abind {W A B} (m : App W A) (k : A -> App W B) : App W B :=
  fun st =>
    match m st with
    | (Ok a, st') => k a st'
    | (Raise e, st') => (Raise e, st')
    end.

(** [try: body  except Exception as e: handler(e)] *)
Definition acatch {W A} (body : App W A) (handler : exn -> App W A) : App W A :=
  fun st =>
    match body st with
    | (Ok a, st') => (Ok a, st')
    | (Raise e, st') => handler e st'
    end.

(** A computation of the engine, run inside a request. *)
Definition lift {W A} (m : M W A) : App W A :=
  fun st =>
    let (r, s') := m (net_state st) in
    (r, {| net_state := s'; disk := disk st |}).

(** A file operation: it is logged, then the world answers. *)
Definition fs_call {W A} (ev : fs_event) (op : W -> outcome A * W) : App W A :=
  fun st =>
    let (r, w') := op (world (net_state st)) in
    (r, {| net_state := {| world := w'; trace := trace (net_state st) |};
           disk := disk st ++ [ev] |}).

Declare Scope app_scope.
Delimit Scope app_scope with app.
Notation "x <- c1 ;; c2" := (abind c1 (fun x => c2))
  (at level 61, c1 at next level, right associativity) : app_scope.
Notation "c1 ;; c2" := (abind c1 (fun _ => c2))
  (at level 61, right associativity) : app_scope.

Section Route.

Variable W : Type.
Variable net : Net W.
Variable fs : Fs W.
Variable idna : str -> option str.

(** [werkzeug.utils.secure_filename] *)
Variable secure_filename : str -> str.

Local Open Scope app_scope.

(** [row['Email']], the receiver of [.strip()]: [KeyError] without the key,
    [AttributeError] on [None]; both are plain exceptions to the handler. *)
Definition row_email (row : csv_row) : App W str :=
  match dict_get row s!"Email" with
  | None => araise OtherException
  | Some None => araise OtherException
  | Some (Some cell) => aret cell
  end.

(** [for row in reader: ... results.append({...})] *)
Fixpoint verify_rows (rows : list csv_row) : App W (list VerificationResult) :=
  match rows with
  | [] => aret []
  | row :: rest =>
      cell <- row_email row ;;
      r <- lift (verify_row net idna cell) ;;
      rs <- verify_rows rest ;;
      aret (r :: rs)
  end.

(** The body of the [with open(input_path ...)] block: the header test, with
    its early [return], and the loop. [inl] is the early return. *)
Definition read_and_verify (file : upload)
  : App W (response + list VerificationResult) :=
  match csv_fieldnames file with
  | Raise e => araise e
  | Ok None => araise OtherException   (* 'Email' not in None: TypeError *)
  | Ok (Some names) =>
      if negb (existsb (str_eqb s!"Email") names)
      then aret (inl (Plain s!"Error: Input CSV must contain an 'Email' column." 400))
      else
        results <- verify_rows (csv_rows file) ;;
        match csv_error file with
        | Some e => araise e
        | None => aret (inr results)
        end
  end.

(** [verify_emails]: the response, and the two paths of the [cleanup] it
    registered with [after_this_request], if it got that far. *)
Definition verify_emails (files : option upload)
  : App W (response * option (str * str)) :=
  match files with
  | None => aret (Plain s!"No file part" 400, None)
  | Some file =>
      if str_eqb (filename file) [] then aret (Plain s!"No selected file" 400, None)
      else if negb (str_eqb (filename file) []) && endswith (filename file) s!".csv" then
        let filename := secure_filename (filename file) in
        let input_path := os_path_join UPLOAD_FOLDER filename in
        fs_call (FsSave input_path) (file_save fs input_path) ;;
        let output_filename := s!"results_" ++ filename in
        let output_path := os_path_join UPLOAD_FOLDER output_filename in
        r <- acatch (read_and_verify file) (fun e => aret (inl (ErrorOccurred e))) ;;
        match r with
        | inl early => aret (early, None)
        | inr results =>
            fs_call (FsWrite output_path (map report_row results))
                    (write_rows fs output_path (map report_row results)) ;;
            aret (SendFile output_path output_filename, Some (input_path, output_path))
        end
      else aret (Plain s!"Invalid file type. Please upload a CSV." 400, None)
  end.

(** The registered [cleanup(response)]: both removals in one [try]; what
    they raise is logged and dropped. *)
Definition cleanup (input_path output_path : str) : App W unit :=
  acatch (fs_call (FsRemove input_path) (os_remove fs input_path) ;;
          fs_call (FsRemove output_path) (os_remove fs output_path))
         (fun _ => aret tt).

End Route.

(** An upload that the route takes further than the checks of the request:
    a file part with a name that ends in [.csv]. *)
Definition is_csv_upload (files : option upload) : bool :=
  match files with
  | None => false
  | Some file => negb (str_eqb (filename file) []) && endswith (filename file) s!".csv"
  end.

(** A file system on which everything succeeds, and an upload of two
    addresses. *)
Definition test_fs : Fs unit :=
  {| file_save := fun path w => (Ok tt, w);
     write_rows := fun path table w => (Ok tt, w);
     os_remove := fun path w => (Ok tt, w) |}.

Definition test_upload : upload :=
  {| filename := s!"list.csv";
     csv_fieldnames := Ok (Some [s!"Name"; s!"Email"]);
     csv_rows := [ [(s!"Name", Some s!"A"); (s!"Email", Some s!" user@good.test ")];
                   [(s!"Name", Some s!"B"); (s!"Email", Some s!"user@ex ample.com")] ];
     csv_error := None |}.

(** An upload whose header has no [Email] column, and an empty file. *)
Definition no_email_upload : upload :=
  {| filename := s!"names.csv";
     csv_fieldnames := Ok (Some [s!"email"]);
     csv_rows := [ [(s!"email", Some s!"user@good.test")] ];
     csv_error := None |}.

Definition empty_upload : upload :=
  {| filename := s!"empty.csv"; csv_fieldnames := Ok None;
     csv_rows := []; csv_error := None |}.

(** Rows of a file whose second line stops before the [Email] column: the
    reader fills the cell with [None]. *)
Definition short_rows : list csv_row :=
  [ [(s!"Name", Some s!"A"); (s!"Email", Some s!"user@good.test")];
    [(s!"Name", Some s!"B"); (s!"Email", None)];
    [(s!"Name", Some s!"C"); (s!"Email", Some s!"user@flaky.test")] ].

Definition app_start : app_state unit := {| net_state := start; disk := [] |}.

(** [test_net] with servers on which the TLS upgrade goes through. *)
Definition tls_net : Net unit :=
  {| Resolver := Resolver test_net;
     getfqdn := getfqdn test_net;
     resolve_MX := resolve_MX test_net;
     SMTP := SMTP test_net;
     ehlo := ehlo test_net;
     starttls := fun host w => (Ok tt, w);
     helo := helo test_net;
     mail := mail test_net;
     rcpt := rcpt test_net;
     quit := quit test_net |}.

(* ================================================================= *)
(** * Properties *)

Unset Implicit Arguments.

Ltac slia := unfold str in *; lia.

(** ** The matcher against the language of a pattern *)

Section IterSpec.
Variable step : str -> list str.
Variable P : str -> Prop.
Hypothesis step_spec : forall t t', In t' (step t) <-> exists w, t = w ++ t' /\ P w.

(** The rounds of a repetition: [iter] reaches [t'] exactly when [t] is
    between [lo] and [cnt] words of the step, followed by [t']. *)
Lemma iter_spec : forall cnt lo t t',
  In t' (iter step lo cnt t) <->
  exists ws, t = concat ws ++ t' /\ Forall P ws /\ lo <= length ws <= cnt.
Proof.
  induction cnt as [|cnt IH]; intros lo t t'; simpl.
  - split.
    + destruct (Nat.eqb_spec lo 0) as [->|]; simpl; [|tauto].
      intros [<-|[]]. exists []. simpl. auto.
    + intros (ws & Ht & _ & Hlo & Hhi).
      destruct ws; simpl in *; [|lia].
      subst t. replace lo with 0 by lia. simpl. auto.
  - rewrite in_app_iff, in_flat_map. split.
    + intros [(t1 & H1 & H2)|H].
      * apply step_spec in H1 as (w & -> & Hw).
        apply IH in H2 as (ws & -> & Hws & Hlen).
        exists (w :: ws). simpl. rewrite <- app_assoc.
        repeat split; auto; lia.
      * destruct (Nat.eqb_spec lo 0) as [->|]; simpl in H; [|tauto].
        destruct H as [<-|[]]. exists []. simpl. repeat split; auto; lia.
    + intros (ws & Ht & Hws & Hlo & Hhi).
      destruct ws as [|w ws]; simpl in *.
      * right. subst t. replace lo with 0 by lia. simpl. auto.
      * left. inversion Hws; subst. exists (concat ws ++ t'). split.
        -- apply step_spec. exists w. rewrite app_assoc. auto.
        -- apply IH. exists ws. repeat split; auto; lia.
Qed.

End IterSpec.

(** Empty rounds beyond the first [lo] can be dropped, which bounds the
    number of rounds by [lo] plus the length consumed. *)
Lemma trim_rounds (P : str -> Prop) : forall ws lo,
  Forall P ws -> lo <= length ws ->
  exists ws', concat ws' = concat ws /\ Forall P ws'
              /\ lo <= length ws' <= lo + length (concat ws).
Proof.
  induction ws as [|w ws IH]; intros lo Hws Hlo; simpl in *.
  - exists []. simpl. repeat split; auto; lia.
  - inversion Hws; subst. destruct lo as [|lo].
    + destruct (IH 0 H2 ltac:(lia)) as (ws' & Hc & Hf & Hl).
      destruct w as [|c w].
      * exists ws'. simpl. repeat split; auto; lia.
      * exists ((c :: w) :: ws'). simpl. rewrite Hc, length_app.
        repeat split; auto; simpl in *; lia.
    + destruct (IH lo H2 ltac:(lia)) as (ws' & Hc & Hf & Hl).
      exists (w :: ws'). simpl. rewrite Hc, length_app.
      repeat split; auto; simpl; lia.
Qed.

(** The matcher is sound and complete for the language of a pattern
    without anchors. *)
Lemma run_spec (n : nat) : forall r, anchor_free r = true ->
  forall t t', In t' (run n r t) <-> exists w, t = w ++ t' /\ lang r w.
Proof.
  induction r as [| |c|items|r1 IH1 r2 IH2|r IH lo hi]; simpl; intros Haf t t';
    try discriminate.
  - destruct t as [|c' t0]; simpl.
    + split; [tauto|]. intros (w & Hw & ->). discriminate.
    + destruct (Ascii.eqb_spec c' c) as [->|Hne]; simpl.
      * split.
        -- intros [<-|[]]. exists [c]. auto.
        -- intros (w & Hw & ->). inversion Hw. auto.
      * split; [tauto|]. intros (w & Hw & ->). inversion Hw. congruence.
  - destruct t as [|c' t0]; simpl.
    + split; [tauto|]. intros (w & Hw & c & -> & _). discriminate.
    + destruct (in_cls items c') eqn:Hc; simpl.
      * split.
        -- intros [<-|[]]. exists [c']. split; eauto.
        -- intros (w & Hw & c & -> & _). inversion Hw. auto.
      * split; [tauto|]. intros (w & Hw & c & -> & Hin). inversion Hw. congruence.
  - apply andb_true_iff in Haf as [Ha1 Ha2].
    rewrite in_flat_map. split.
    + intros (t1 & H1 & H2).
      apply (IH1 Ha1) in H1 as (u & -> & Hu).
      apply (IH2 Ha2) in H2 as (v & -> & Hv).
      exists (u ++ v). rewrite <- app_assoc. eauto 6.
    + intros (w & -> & u & v & -> & Hu & Hv).
      exists (v ++ t'). split.
      * apply (IH1 Ha1). exists u. rewrite app_assoc. auto.
      * apply (IH2 Ha2). eauto.
  - rewrite (@iter_spec (run n r) (lang r) (IH Haf)). split.
    + intros (ws & -> & Hws & Hlo & Hhi).
      exists (concat ws). split; auto. exists ws. repeat split; auto.
      destruct hi; auto.
    + intros (w & -> & ws & -> & Hws & Hlo & Hhi).
      destruct hi as [h|].
      * exists ws. repeat split; auto.
      * destruct (trim_rounds _ _ _ Hws Hlo) as (ws' & Hc & Hf & Hl).
        exists ws'. rewrite Hc, length_app. repeat split; auto; lia.
Qed.

(** ** The pattern of [check_syntax] against the spec's address shape *)

Lemma in_local_cls c : in_cls local_cls c = is_local_char c.
Proof. destruct c as [[] [] [] [] [] [] [] []]; reflexivity. Qed.

Lemma in_alnum_cls c : in_cls alnum_cls c = is_alnum c.
Proof. destruct c as [[] [] [] [] [] [] [] []]; reflexivity. Qed.

Lemma in_alnum_hyphen_cls c : in_cls alnum_hyphen_cls c = is_alnum_or_hyphen c.
Proof. destruct c as [[] [] [] [] [] [] [] []]; reflexivity. Qed.

Lemma forallb_eq (A : Type) (f g : A -> bool) (l : list A) :
  (forall x, f x = g x) -> forallb f l = forallb g l.
Proof. intros H. induction l; simpl; congruence. Qed.

(** A repeated character class matches the words over the class. *)
Lemma lang_Rep_Cls items lo hi u :
  lang (Rep (Cls items) lo hi) u <->
  forallb (in_cls items) u = true /\ lo <= length u
  /\ match hi with Some h => length u <= h | None => True end.
Proof.
  simpl. split.
  - intros (ws & -> & Hws & Hlo & Hhi).
    assert (H : forallb (in_cls items) (concat ws) = true
                /\ length (concat ws) = length ws).
    { clear Hlo Hhi. induction Hws as [|w ws (c & -> & Hc) _ [IH1 IH2]]; simpl; auto.
      rewrite Hc, IH1, IH2. auto. }
    destruct H as [H1 H2]. rewrite H2. auto.
  - intros (Hall & Hlo & Hhi).
    exists (map (fun c => [c]) u). rewrite length_map. repeat split; auto.
    + clear. induction u; simpl; congruence.
    + clear Hlo Hhi. induction u as [|c u IH]; simpl in *; constructor.
      * apply andb_true_iff in Hall as [Hc _]. eauto.
      * apply IH. apply andb_true_iff in Hall. tauto.
Qed.

Lemma last_snoc (A : Type) (l : list A) (x d : A) : last (l ++ [x]) d = x.
Proof. apply last_last. Qed.

Lemma snoc_cases (A : Type) (l : list A) : l = [] \/ exists l' x, l = l' ++ [x].
Proof.
  destruct l as [|a l]; auto. right.
  destruct (@exists_last _ (a :: l)) as (l' & x & ->); [discriminate|eauto].
Qed.

Lemma label_ok_one c : label_ok [c] = is_alnum c.
Proof.
  unfold label_ok. simpl. destruct (is_alnum c); reflexivity.
Qed.

Lemma label_ok_snoc c mid d :
  label_ok (c :: mid ++ [d])
  = is_alnum c && is_alnum d && forallb is_alnum_or_hyphen mid && (length mid <=? 61).
Proof.
  unfold label_ok.
  change (c :: mid ++ [d]) with ((c :: mid) ++ [d]).
  rewrite last_snoc, removelast_last, length_app.
  replace (length (c :: mid) + length [d]) with (S (S (length mid))) by (simpl; lia).
  reflexivity.
Qed.

(** The label pattern matches the spec's labels. *)
Lemma lang_label l : lang label_re l <-> label_ok l = true.
Proof.
  unfold label_re, Opt. split.
  - intros (u & v & -> & (c & -> & Hc) & ws & -> & Hws & _ & Hlen).
    rewrite in_alnum_cls in Hc.
    destruct ws as [|w ws].
    + cbn [concat app]. rewrite label_ok_one. exact Hc.
    + destruct ws; simpl in Hlen; [|lia].
      inversion Hws as [|? ? Hw _]; subst.
      destruct Hw as (mid & e & -> & Hmid & d & -> & Hd).
      apply lang_Rep_Cls in Hmid as (Hall & _ & Hm).
      rewrite in_alnum_cls in Hd.
      rewrite (forallb_eq _ _ _ _ in_alnum_hyphen_cls) in Hall.
      cbn [concat]. rewrite app_nil_r. cbn [app].
      rewrite label_ok_snoc, Hc, Hd, Hall. simpl.
      apply Nat.leb_le. lia.
  - destruct l as [|c rest]; [discriminate|].
    destruct (snoc_cases _ rest) as [->|(mid & d & ->)].
    + rewrite label_ok_one. intros Hc.
      exists [c], []. repeat split.
      * exists c. rewrite in_alnum_cls. auto.
      * exists []. simpl. repeat split; auto.
    + rewrite label_ok_snoc. intros H.
      repeat (apply andb_true_iff in H as [H ?]).
      exists [c], (mid ++ [d]). repeat split.
      * exists c. rewrite in_alnum_cls. auto.
      * exists [mid ++ [d]]. cbn [concat length]. rewrite app_nil_r.
        split; [reflexivity|]. split; [|lia].
        constructor; [|constructor].
        exists mid, [d]. split; [reflexivity|]. split.
        -- apply lang_Rep_Cls.
           rewrite (forallb_eq _ _ _ _ in_alnum_hyphen_cls).
           repeat split; auto; try lia. apply Nat.leb_le. auto.
        -- exists d. rewrite in_alnum_cls. auto.
Qed.

Lemma join_cons sep l0 ls :
  join sep (l0 :: ls) = l0 ++ concat (map (cons sep) ls).
Proof.
  revert l0. induction ls as [|l ls IH]; intros l0.
  - simpl. rewrite app_nil_r. reflexivity.
  - change (join sep (l0 :: l :: ls)) with (l0 ++ sep :: join sep (l :: ls)).
    rewrite IH. reflexivity.
Qed.

Lemma dotted_labels ws :
  Forall (lang (Cat (Lit ".") label_re)) ws ->
  exists ls, ws = map (cons "."%char) ls /\ forallb label_ok ls = true.
Proof.
  induction 1 as [|w ws (u & v & -> & -> & Hv) _ (ls & -> & Hls)].
  - exists []. auto.
  - exists (v :: ls). cbn [map forallb app].
    apply lang_label in Hv. rewrite Hv, Hls. auto.
Qed.

Lemma lang_domain d :
  lang domain_re d <->
  exists labels, d = join "." labels /\ 2 <= length labels
                 /\ forallb label_ok labels = true.
Proof.
  unfold domain_re, Plus. split.
  - intros (l0 & v & -> & Hl0 & ws & -> & Hws & Hlen & _).
    apply dotted_labels in Hws as (ls & -> & Hls).
    apply lang_label in Hl0.
    exists (l0 :: ls). rewrite join_cons. rewrite length_map in Hlen.
    cbn [length forallb]. rewrite Hl0, Hls. repeat split; auto. unfold str in *; lia.
  - intros (labels & -> & Hlen & Hok).
    destruct labels as [|l0 ls]; [simpl in Hlen; slia|].
    cbn [forallb] in Hok. apply andb_true_iff in Hok as [Hl0 Hls].
    rewrite join_cons.
    exists l0, (concat (map (cons "."%char) ls)). split; [reflexivity|].
    split; [apply lang_label; exact Hl0|].
    exists (map (cons "."%char) ls). split; [reflexivity|].
    rewrite length_map. cbn [length] in Hlen. split; [|split; [slia|exact I]].
    clear Hlen Hl0. induction ls as [|l ls IH]; cbn [map]; constructor.
    + cbn [forallb] in Hls. apply andb_true_iff in Hls as [Hl _].
      exists ["."%char], l. repeat split. apply lang_label. exact Hl.
    + apply IH. cbn [forallb] in Hls. apply andb_true_iff in Hls. tauto.
Qed.

(** The pattern between the anchors matches the spec's addresses. *)
Lemma lang_address w : lang address_re w <-> address_shape w.
Proof.
  change address_re with (Cat (Plus (Cls local_cls)) (Cat (Lit "@") domain_re)).
  unfold address_shape, Plus. split.
  - intros (u & v & -> & Hu & a & d & -> & -> & Hd).
    apply lang_Rep_Cls in Hu as (Hall & Hlen & _).
    apply lang_domain in Hd as (labels & -> & Hl & Hok).
    exists u, labels. rewrite (forallb_eq _ _ _ _ in_local_cls) in Hall.
    repeat split; auto. intros ->. simpl in Hlen. slia.
  - intros (local & labels & -> & Hne & Hall & Hl & Hok).
    exists local, ("@"%char :: join "." labels). split; [reflexivity|]. split.
    + apply lang_Rep_Cls. rewrite (forallb_eq _ _ _ _ in_local_cls).
      repeat split; auto. destruct local; [congruence|simpl; slia].
    + exists ["@"%char], (join "." labels). repeat split.
      apply lang_domain. eauto.
Qed.

Lemma re_match_iff r s :
  re_match r s = true <-> exists t, In t (run (length s) r s).
Proof.
  unfold re_match. destruct (run (length s) r s) as [|t l]; split.
  - discriminate.
  - intros (t & []).
  - intros _. exists t. simpl. auto.
  - auto.
Qed.

Lemma run_Eol n t t' : In t' (run n Eol t) <-> t' = t /\ (t = [] \/ t = [LF]).
Proof.
  simpl. destruct t as [|c [|c' t]]; simpl.
  - intuition.
  - destruct (Ascii.eqb_spec c LF) as [->|Hne]; simpl; [intuition|].
    split; [tauto|]. intros (_ & [H|H]); [discriminate|]. inversion H. congruence.
  - split; [tauto|]. intros (_ & [H|H]); discriminate.
Qed.

(** [^A$] from the start of the subject: a match of [A] that ends at the
    end of the subject or just before its final newline. *)
Lemma run_anchored s A t :
  In t (run (length s) (Cat Bol (Cat A Eol)) s) <->
  In t (run (length s) A s) /\ (t = [] \/ t = [LF]).
Proof.
  change (run (length s) (Cat Bol (Cat A Eol)) s)
    with (flat_map (fun t0 => flat_map (run (length s) Eol) (run (length s) A t0))
                   (if length s =? length s then [s] else [])).
  rewrite Nat.eqb_refl. cbn [flat_map]. rewrite app_nil_r, in_flat_map.
  split.
  - intros (x & Hx & Ht). apply run_Eol in Ht as (-> & Ht). auto.
  - intros (Hx & Ht). exists t. split; auto. apply run_Eol. auto.
Qed.

Lemma address_re_anchor_free : anchor_free address_re = true.
Proof. reflexivity. Qed.

(** What [check_syntax] accepts: the addresses of the spec's shape, and
    those followed by one newline (the [$] of the pattern also matches just
    before a final newline). *)
Lemma check_syntax_accepts s :
  check_syntax s = true <->
  address_shape s \/ exists s', s = s' ++ [LF] /\ address_shape s'.
Proof.
  unfold check_syntax, email_regex. rewrite re_match_iff. split.
  - intros (t & Ht). apply run_anchored in Ht as (Ht & Hend).
    apply (run_spec _ _ address_re_anchor_free) in Ht as (w & -> & Hw).
    apply lang_address in Hw.
    destruct Hend as [->| ->]; [left|right].
    + rewrite app_nil_r. exact Hw.
    + eauto.
  - intros [Hs|(s' & -> & Hs)]; apply lang_address in Hs.
    + exists []. apply run_anchored. split; auto.
      apply (run_spec _ _ address_re_anchor_free). exists s. rewrite app_nil_r. auto.
    + exists [LF]. apply run_anchored. split; auto.
      apply (run_spec _ _ address_re_anchor_free). eauto.
Qed.

(** ** Consequences for accepted addresses *)

Lemma ends_with_snoc c s x : ends_with c (s ++ [x]) = Ascii.eqb x c.
Proof. unfold ends_with. rewrite rev_app_distr. reflexivity. Qed.

Lemma label_ok_last l :
  label_ok l = true -> exists l0 d, l = l0 ++ [d] /\ is_alnum d = true.
Proof.
  destruct l as [|c rest]; [discriminate|].
  destruct (snoc_cases _ rest) as [->|(mid & d & ->)].
  - rewrite label_ok_one. intros H. exists [], c. auto.
  - rewrite label_ok_snoc. intros H.
    repeat (apply andb_true_iff in H as [H ?]).
    exists (c :: mid), d. auto.
Qed.

Lemma label_ok_chars l :
  label_ok l = true -> forallb is_alnum_or_hyphen l = true.
Proof.
  assert (A : forall c, is_alnum c = true -> is_alnum_or_hyphen c = true).
  { intros c H. unfold is_alnum_or_hyphen. rewrite H. reflexivity. }
  destruct l as [|c rest]; [discriminate|].
  destruct (snoc_cases _ rest) as [->|(mid & d & ->)].
  - rewrite label_ok_one. intros H. simpl. rewrite (A _ H). reflexivity.
  - rewrite label_ok_snoc. intros H.
    repeat (apply andb_true_iff in H as [H ?]).
    cbn [forallb]. rewrite forallb_app. cbn [forallb].
    rewrite (A _ H), (A _ H2), H1. reflexivity.
Qed.

Lemma join_snoc sep ls l : exists pre, join sep (ls ++ [l]) = pre ++ l.
Proof.
  destruct ls as [|l0 ls].
  - exists []. reflexivity.
  - cbn [app]. rewrite join_cons, map_app, concat_app. cbn [map concat].
    rewrite app_nil_r.
    exists (l0 ++ concat (map (cons sep) ls) ++ [sep]).
    rewrite <- !app_assoc. reflexivity.
Qed.

(** An address of the spec's shape ends with an alphanumeric character. *)
Lemma address_shape_last s :
  address_shape s -> exists s0 d, s = s0 ++ [d] /\ is_alnum d = true.
Proof.
  intros (local & labels & -> & _ & _ & Hlen & Hok).
  destruct (snoc_cases _ labels) as [->|(ls & l & ->)]; [simpl in Hlen; lia|].
  rewrite forallb_app in Hok. apply andb_true_iff in Hok as [_ Hl].
  cbn [forallb] in Hl. rewrite andb_true_r in Hl.
  apply label_ok_last in Hl as (l0 & d & -> & Hd).
  destruct (join_snoc "." ls (l0 ++ [d])) as (pre & ->).
  exists (local ++ "@"%char :: pre ++ l0), d. split; [|exact Hd].
  rewrite <- !app_assoc. cbn [app]. rewrite <- !app_assoc. reflexivity.
Qed.

Lemma address_shape_no_newline s : address_shape s -> ends_with LF s = false.
Proof.
  intros H. apply address_shape_last in H as (s0 & d & -> & Hd).
  rewrite ends_with_snoc.
  destruct (Ascii.eqb_spec d LF) as [->|]; [vm_compute in Hd; discriminate|reflexivity].
Qed.

(** X1. The validator against the spec's shape, for every string: it returns
    true exactly for the addresses of the shape and for such an address
    followed by one newline. *)
Theorem check_syntax_iff s :
  check_syntax s = true <->
  address_shape s \/ exists s', s = s' ++ [LF] /\ address_shape s'.
Proof.
  split; intros H.
  - apply check_syntax_accepts in H. exact H.
  - apply check_syntax_accepts. exact H.
Qed.

(** C7, at the input on which the code leaves the spec's shape: the address
    [user@example.com] followed by a newline is accepted, and is not of the
    shape. *)
Theorem check_syntax_accepts_trailing_newline :
  check_syntax (s!"user@example.com" ++ [LF]) = true
  /\ ~ address_shape (s!"user@example.com" ++ [LF]).
Proof.
  split; [reflexivity|].
  intros H. apply address_shape_no_newline in H.
  rewrite ends_with_snoc in H. discriminate H.
Qed.

(** C10, as amended. An accepted string that does not end with a newline is
    still accepted with one newline appended, and is then outside the
    spec's shape. *)
Theorem check_syntax_newline_appended s :
  check_syntax s = true ->
  ends_with LF s = false ->
  check_syntax (s ++ [LF]) = true /\ ~ address_shape (s ++ [LF]).
Proof.
  intros Hs Hend. split.
  - apply check_syntax_accepts. right. exists s. split; [reflexivity|].
    apply check_syntax_accepts in Hs as [Hs|(s' & -> & _)]; [exact Hs|].
    rewrite ends_with_snoc in Hend. discriminate Hend.
  - intros H. apply address_shape_no_newline in H.
    rewrite ends_with_snoc in H. discriminate H.
Qed.

(** An accepted string that already ends with a newline is no longer
    accepted with another one appended. *)
Lemma check_syntax_second_newline s :
  check_syntax s = true -> ends_with LF s = true -> check_syntax (s ++ [LF]) = false.
Proof.
  intros Hs Hend. destruct (check_syntax (s ++ [LF])) eqn:E; [|reflexivity].
  apply check_syntax_accepts in E as [E|(s' & E & Hs')].
  - apply address_shape_no_newline in E. rewrite ends_with_snoc in E. discriminate E.
  - apply app_inj_tail in E as [<- _].
    apply address_shape_no_newline in Hs'. congruence.
Qed.

(** C10, as stated, fails: [user@example.com] with a newline is accepted, with
    two newlines it is not. *)
Lemma check_syntax_newline_not_closed :
  ~ (forall s, check_syntax s = true -> check_syntax (s ++ [LF]) = true).
Proof.
  intros H. specialize (H (s!"user@example.com" ++ [LF]) eq_refl).
  vm_compute in H. discriminate H.
Qed.

(** *** After [strip], the validator and the shape agree *)

Lemma rstrip_space_last s s0 c :
  rstrip_space s = s0 ++ [c] -> is_space c = false.
Proof.
  revert s0. induction s as [|x s IH]; intros s0 H; cbn [rstrip_space] in H.
  - destruct s0; discriminate.
  - destruct (rstrip_space s) as [|y r].
    + destruct (is_space x) eqn:Hx; [destruct s0; discriminate|].
      destruct s0 as [|a [|b s0]]; inversion H; subst; exact Hx.
    + destruct s0 as [|a s0]; [inversion H|].
      inversion H; subst. eapply IH. eassumption.
Qed.

Lemma strip_no_newline s : ends_with LF (strip s) = false.
Proof.
  unfold strip. destruct (snoc_cases _ (rstrip_space (lstrip_space s))) as [E|(s0 & c & E)];
    rewrite E.
  - reflexivity.
  - rewrite ends_with_snoc. apply rstrip_space_last in E.
    destruct (Ascii.eqb_spec c LF) as [->|]; [vm_compute in E; discriminate|reflexivity].
Qed.

(** X3. On the stripped cell that [verify_emails] validates, [check_syntax]
    accepts exactly the addresses of the spec's shape. *)
Theorem check_syntax_strip_shape cell :
  check_syntax (strip cell) = true <-> address_shape (strip cell).
Proof.
  rewrite check_syntax_accepts. split; [|auto].
  intros [H|(s' & E & _)]; [exact H|].
  pose proof (strip_no_newline cell) as N.
  rewrite E, ends_with_snoc in N. discriminate N.
Qed.

(** *** Splitting at a separator *)

Lemma split_on_lacks sep s : lacks sep s = true -> split_on sep s = [s].
Proof.
  induction s as [|c s IH]; simpl; auto.
  intros H. apply andb_true_iff in H as [Hc Hs].
  destruct (Ascii.eqb c sep); [discriminate|]. rewrite (IH Hs). reflexivity.
Qed.

Lemma split_on_app sep a b :
  lacks sep a = true -> split_on sep (a ++ sep :: b) = a :: split_on sep b.
Proof.
  induction a as [|c a IH]; simpl.
  - rewrite Ascii.eqb_refl. reflexivity.
  - intros H. apply andb_true_iff in H as [Hc Ha].
    destruct (Ascii.eqb c sep); [discriminate|]. rewrite (IH Ha). reflexivity.
Qed.

Lemma after_last_lacks sep s : lacks sep s = true -> after_last sep s = None.
Proof.
  induction s as [|c s IH]; simpl; auto.
  intros H. apply andb_true_iff in H as [Hc Hs]. rewrite (IH Hs).
  destruct (Ascii.eqb c sep); [discriminate|reflexivity].
Qed.

Lemma after_last_app sep a b :
  lacks sep b = true -> after_last sep (a ++ sep :: b) = Some b.
Proof.
  intros Hb. induction a as [|c a IH]; simpl.
  - rewrite (after_last_lacks _ _ Hb), Ascii.eqb_refl. reflexivity.
  - rewrite IH. reflexivity.
Qed.

Lemma count_occ_lacks sep s : lacks sep s = true -> count_occ ascii_dec s sep = 0.
Proof.
  induction s as [|c s IH]; simpl; auto.
  intros H. apply andb_true_iff in H as [Hc Hs].
  destruct (ascii_dec c sep) as [->|]; [|auto].
  rewrite Ascii.eqb_refl in Hc. discriminate.
Qed.

Lemma local_char_not_at c : is_local_char c = true -> negb (Ascii.eqb c "@") = true.
Proof. destruct c as [[] [] [] [] [] [] [] []]; intros H; try reflexivity; discriminate H. Qed.

Lemma label_char_not_at c :
  is_alnum_or_hyphen c = true -> negb (Ascii.eqb c "@") = true.
Proof. destruct c as [[] [] [] [] [] [] [] []]; intros H; try reflexivity; discriminate H. Qed.

Lemma forallb_impl (A : Type) (f g : A -> bool) (l : list A) :
  (forall x, f x = true -> g x = true) -> forallb f l = true -> forallb g l = true.
Proof.
  intros H. induction l as [|x l IH]; simpl; auto.
  intros E. apply andb_true_iff in E as [E1 E2]. rewrite (H _ E1), (IH E2). reflexivity.
Qed.

Lemma lacks_join sep c labels :
  Ascii.eqb c sep = false ->
  forallb (lacks sep) labels = true -> lacks sep (join c labels) = true.
Proof.
  intros Hc. destruct labels as [|l0 ls]; [reflexivity|].
  rewrite join_cons. cbn [forallb]. intros H.
  apply andb_true_iff in H as [H0 Hls]. unfold lacks in *.
  rewrite forallb_app, H0. cbn [andb].
  induction ls as [|l ls IH]; [reflexivity|].
  cbn [forallb map concat] in *. apply andb_true_iff in Hls as [Hl Hls].
  rewrite forallb_app. cbn [forallb]. rewrite Hc, Hl, (IH Hls). reflexivity.
Qed.

(** An accepted address has exactly one [@]: a local part without one,
    [@], and a rest without one. *)
Lemma check_syntax_one_at s :
  check_syntax s = true ->
  exists local rest, s = local ++ "@"%char :: rest
                     /\ lacks "@" local = true /\ lacks "@" rest = true.
Proof.
  intros H. apply check_syntax_accepts in H.
  assert (G : forall w, address_shape w ->
            exists local rest, w = local ++ "@"%char :: rest
              /\ lacks "@" local = true /\ lacks "@" rest = true).
  { intros w (local & labels & -> & _ & Hloc & _ & Hok).
    exists local, (join "." labels). split; [reflexivity|]. split.
    - exact (forallb_impl _ _ _ _ local_char_not_at Hloc).
    - apply lacks_join; [reflexivity|].
      refine (forallb_impl _ _ _ _ _ Hok). intros l Hl.
      exact (forallb_impl _ _ _ _ label_char_not_at (label_ok_chars _ Hl)). }
  destruct H as [H|(s' & -> & H)]; apply G in H as (local & rest & -> & Hl & Hr).
  - eauto.
  - exists local, (rest ++ [LF]). rewrite <- app_assoc. split; [reflexivity|].
    split; [exact Hl|]. unfold lacks in *. rewrite forallb_app, Hr. reflexivity.
Qed.

(** ** Classification of reply codes *)

(** C4. The RCPT reply code is classified as: 250 and 251 [Exists]; 550,
    551 and 553 [DoesNotExist]; every other code, 4xx or not,
    [Unverifiable]. *)
Theorem classify_reply_code (code : Z) :
  (classify code = Exists <-> code = 250 \/ code = 251)%Z
  /\ (classify code = DoesNotExist <-> code = 550 \/ code = 551 \/ code = 553)%Z
  /\ (classify code = Unverifiable
      <-> ~ (code = 250 \/ code = 251 \/ code = 550 \/ code = 551 \/ code = 553))%Z.
Proof.
  unfold classify.
  destruct (Z.eqb_spec code 250); [subst; simpl; repeat split; intros; try discriminate; lia|].
  destruct (Z.eqb_spec code 251); [subst; simpl; repeat split; intros; try discriminate; lia|].
  destruct (Z.eqb_spec code 550); [subst; simpl; repeat split; intros; try discriminate; lia|].
  destruct (Z.eqb_spec code 551); [subst; simpl; repeat split; intros; try discriminate; lia|].
  destruct (Z.eqb_spec code 553); [subst; simpl; repeat split; intros; try discriminate; lia|].
  simpl. destruct ((400 <=? code)%Z && (code <? 500)%Z);
    repeat split; intros; try discriminate; lia.
Qed.

(** ** The sort of the MX entries *)

Lemma insert_by_key_perm x l : Permutation (x :: l) (insert_by_key x l).
Proof.
  induction l as [|y l IH]; simpl.
  - apply Permutation_refl.
  - destruct (fst x <=? fst y)%Z.
    + apply Permutation_refl.
    + eapply perm_trans; [apply perm_swap|]. apply perm_skip. exact IH.
Qed.

Lemma sort_by_key_perm l : Permutation l (sort_by_key l).
Proof.
  induction l as [|x l IH]; simpl.
  - constructor.
  - eapply perm_trans; [|apply insert_by_key_perm]. apply perm_skip. exact IH.
Qed.

Lemma insert_by_key_sorted x l :
  StronglySorted pref_le l -> StronglySorted pref_le (insert_by_key x l).
Proof.
  induction 1 as [|y l Hs IH Hy]; simpl.
  - repeat constructor.
  - destruct (Z.leb_spec (fst x) (fst y)) as [Hle|Hgt].
    + constructor; [constructor; assumption|].
      constructor; [exact Hle|].
      rewrite Forall_forall in *. intros z Hz. specialize (Hy z Hz).
      unfold pref_le in *. lia.
    + constructor; [exact IH|].
      rewrite Forall_forall in *. intros z Hz.
      apply (Permutation_in _ (Permutation_sym (insert_by_key_perm x l))) in Hz.
      destruct Hz as [<-|Hz]; [unfold pref_le; lia|auto].
Qed.

Lemma sort_by_key_sorted l : StronglySorted pref_le (sort_by_key l).
Proof.
  induction l as [|x l IH]; simpl; [constructor|].
  apply insert_by_key_sorted. exact IH.
Qed.

(** Inserting [x] moves it past entries of a smaller preference only, so
    the entries of any one preference keep their order. *)
Lemma insert_by_key_stable p x l :
  with_pref p (insert_by_key x l) = with_pref p (x :: l).
Proof.
  induction l as [|y l IH]; [reflexivity|].
  cbn [insert_by_key]. destruct (Z.leb_spec (fst x) (fst y)) as [Hle|Hgt]; [reflexivity|].
  unfold with_pref in *. cbn [filter] in *. rewrite IH.
  destruct (Z.eqb_spec (fst y) p) as [Hy|Hy]; [|reflexivity].
  destruct (Z.eqb_spec (fst x) p) as [Hx|Hx]; [lia|reflexivity].
Qed.

Lemma sort_by_key_stable p l : with_pref p (sort_by_key l) = with_pref p l.
Proof.
  induction l as [|x l IH]; [reflexivity|].
  cbn [sort_by_key]. rewrite insert_by_key_stable.
  unfold with_pref in *. cbn [filter]. rewrite IH. reflexivity.
Qed.

(** ** The Null MX filter *)

Lemma str_eqb_eq a b : str_eqb a b = true <-> a = b.
Proof.
  unfold str_eqb. destruct (list_eq_dec ascii_dec a b); split; auto; discriminate.
Qed.

Lemma strip_root_dot_snoc s : strip_root_dot (s ++ ["."%char]) = s.
Proof.
  unfold strip_root_dot. rewrite rev_app_distr. cbn [rev app].
  apply rev_involutive.
Qed.

Lemma strip_root_dot_other s x :
  x <> "."%char -> strip_root_dot (s ++ [x]) = s ++ [x].
Proof.
  intros Hx. unfold strip_root_dot. rewrite rev_app_distr. cbn [rev app].
  destruct x as [[] [] [] [] [] [] [] []]; try reflexivity. congruence.
Qed.

(** The names the spec's test calls null are the empty name, the root and
    a doubled root dot; [rstrip] leaves nothing of any of them. *)
Lemma null_exchange_rstrip s : null_exchange s = true -> rstrip "." s = [].
Proof.
  unfold null_exchange. intros H.
  apply orb_true_iff in H. rewrite !str_eqb_eq in H.
  destruct (snoc_cases _ s) as [->|(s' & x & ->)]; [reflexivity|].
  destruct (ascii_dec x ".") as [->|Hx].
  - rewrite strip_root_dot_snoc in H. destruct H as [->| ->]; reflexivity.
  - rewrite (strip_root_dot_other _ _ Hx) in H. destruct H as [H|H].
    + destruct s'; discriminate.
    + assert (L : last (s' ++ [x]) x = "."%char) by (rewrite H; reflexivity).
      rewrite last_last in L. congruence.
Qed.

Lemma mx_entries_app a b : mx_entries (a ++ b) = mx_entries a ++ mx_entries b.
Proof.
  induction a as [|r a IH]; [reflexivity|].
  cbn [app mx_entries]. rewrite IH.
  destruct (str_eqb _ _ || str_eqb _ _); reflexivity.
Qed.

Lemma mx_entries_null r : null_exchange (exchange r) = true -> mx_entries [r] = [].
Proof.
  intros H. cbn [mx_entries]. rewrite (null_exchange_rstrip _ H). reflexivity.
Qed.

Lemma mx_entries_all_null answers :
  forallb (fun r => null_exchange (exchange r)) answers = true ->
  mx_entries answers = [].
Proof.
  induction answers as [|r rest IH]; [reflexivity|].
  cbn [forallb]. intros H. apply andb_true_iff in H as [Hr Hrest].
  change (r :: rest) with ([r] ++ rest).
  rewrite mx_entries_app, (mx_entries_null _ Hr), (IH Hrest). reflexivity.
Qed.

(** No host that the resolver keeps is empty or the root. *)
Lemma mx_entries_usable answers :
  Forall (fun e => snd e <> [] /\ snd e <> s!".") (mx_entries answers).
Proof.
  induction answers as [|r rest IH]; [constructor|].
  cbn [mx_entries].
  destruct (str_eqb (rstrip "." (exchange r)) []) eqn:E1; [exact IH|].
  destruct (str_eqb (rstrip "." (exchange r)) s!".") eqn:E2; [exact IH|].
  cbn [orb]. constructor; [|exact IH]. cbn [snd]. split; intros E.
  - apply str_eqb_eq in E. congruence.
  - apply str_eqb_eq in E. congruence.
Qed.

(** ** The monad and the trace *)

Section MonadFacts.
Variable W : Type.

Lemma bind_ok A B (m : M W A) (k : A -> M W B) st a st1 :
  m st = (Ok a, st1) -> bind m k st = k a st1.
Proof. unfold bind. intros ->. reflexivity. Qed.

Lemma bind_raise A B (m : M W A) (k : A -> M W B) st e st1 :
  m st = (Raise e, st1) -> bind m k st = (Raise e, st1).
Proof. unfold bind. intros ->. reflexivity. Qed.

Lemma try_ok A (body : M W A) clauses st a st1 :
  body st = (Ok a, st1) -> try_except body clauses st = (Ok a, st1).
Proof. unfold try_except. intros ->. reflexivity. Qed.

Lemma try_raise A (body : M W A) clauses st e st1 :
  body st = (Raise e, st1) ->
  try_except body clauses st
  = match handler_for clauses e with
    | Some h => h st1
    | None => (Raise e, st1)
    end.
Proof. unfold try_except. intros ->. reflexivity. Qed.

Lemma emits_ret A (P : event -> Prop) (a : A) : emits P (ret (W:=W) a).
Proof.
  intros st r st' H. inversion H; subst. exists []. rewrite app_nil_r. auto.
Qed.

Lemma emits_bind A B (P : event -> Prop) (m : M W A) (k : A -> M W B) :
  emits P m -> (forall a, emits P (k a)) -> emits P (bind m k).
Proof.
  intros Hm Hk st r st' H. unfold bind in H.
  destruct (m st) as [[a|e] st1] eqn:E.
  - destruct (Hm _ _ _ E) as (ev1 & T1 & F1).
    destruct (Hk a _ _ _ H) as (ev2 & T2 & F2).
    exists (ev1 ++ ev2). rewrite T2, T1, app_assoc. split; auto.
    apply Forall_app; auto.
  - inversion H; subst. eauto.
Qed.

Lemma handler_for_In A (clauses : list (list pyclass * M W A)) e h :
  handler_for clauses e = Some h -> exists c, In (c, h) clauses /\ catches c e = true.
Proof.
  induction clauses as [|[c h'] rest IH]; simpl; [discriminate|].
  destruct (catches c e) eqn:E.
  - intros H. inversion H; subst. eauto.
  - intros H. destruct (IH H) as (c' & Hin & Hc). eauto.
Qed.

Lemma emits_try A (P : event -> Prop) (body : M W A) clauses :
  emits P body -> Forall (fun ch => emits P (snd ch)) clauses ->
  emits P (try_except body clauses).
Proof.
  intros Hb Hc st r st' H. unfold try_except in H.
  destruct (body st) as [[a|e] st1] eqn:E.
  - inversion H; subst. eauto.
  - destruct (Hb _ _ _ E) as (ev1 & T1 & F1).
    destruct (handler_for clauses e) as [h|] eqn:Eh.
    + apply handler_for_In in Eh as (c & Hin & _).
      rewrite Forall_forall in Hc. specialize (Hc _ Hin). simpl in Hc.
      destruct (Hc _ _ _ H) as (ev2 & T2 & F2).
      exists (ev1 ++ ev2). rewrite T2, T1, app_assoc. split; auto.
      apply Forall_app; auto.
    + inversion H; subst. eauto.
Qed.

Lemma emits_call A (P : event -> Prop) ev (op : W -> outcome A * W) :
  P ev -> emits P (call ev op).
Proof.
  intros Hev st r st' H. unfold call in H.
  destruct (op (world st)) as [r0 w']. inversion H; subst. simpl. eauto.
Qed.

Lemma connects_app t1 t2 : connects (t1 ++ t2) = connects t1 ++ connects t2.
Proof.
  induction t1 as [|ev t1 IH]; simpl; auto. destruct ev; simpl; rewrite ?IH; auto.
Qed.

Lemma lookups_app t1 t2 : lookups (t1 ++ t2) = lookups t1 ++ lookups t2.
Proof.
  induction t1 as [|ev t1 IH]; simpl; auto. destruct ev; simpl; rewrite ?IH; auto.
Qed.

Lemma session_events_quiet h evs :
  Forall (session_event h) evs -> connects evs = [] /\ lookups evs = [].
Proof.
  induction 1 as [|ev evs Hev _ [IH1 IH2]]; simpl; auto.
  destruct ev; simpl in *; auto; contradiction.
Qed.

End MonadFacts.

Arguments bind_ok {W A B m k st a st1} _.
Arguments bind_raise {W A B m k st e st1} _.
Arguments try_ok {W A body clauses st a st1} _.
Arguments try_raise {W A body clauses st e st1} _.


Section EngineFacts.
Variable W : Type.
Variable net : Net W.
Variable idna : str -> option str.

Ltac emits_tac :=
  repeat first
    [ apply emits_ret
    | apply emits_call; simpl; reflexivity
    | apply emits_bind; [|intros ?]
    | apply emits_try; [|repeat constructor; simpl]
    | match goal with |- emits _ (match ?x with _ => _ end) => destruct x end
    | match goal with |- emits _ (if ?x then _ else _) => destruct x end ].

Lemma quit_quietly_emits server : emits (session_event server) (quit_quietly net server).
Proof. unfold quit_quietly. emits_tac. Qed.

Lemma quit_quietly_returns server st :
  exists st', quit_quietly net server st = (Ok tt, st').
Proof.
  unfold quit_quietly, try_except, call, ret.
  destruct (quit net server (world st)) as [[[]|e] w']; simpl; eauto.
Qed.

Lemma dialogue_emits server email local_helo :
  emits (session_event server) (dialogue net server email local_helo).
Proof. unfold dialogue. emits_tac; apply quit_quietly_emits. Qed.


Lemma round_handlers_catch server (e : exn) :
  handler_for
    [ ([C_SMTPServerDisconnected; C_SMTPResponseException; C_SMTPHeloError],
       bind (quit_quietly net server) (fun _ => ret (Continue (A:=MailboxStatus))));
      ([C_socket_timeout; C_socket_error],
       bind (quit_quietly net server) (fun _ => ret Continue));
      ([C_Exception],
       bind (quit_quietly net server) (fun _ => ret Continue)) ] e
  = Some (bind (quit_quietly net server) (fun _ => ret Continue)).
Proof. destruct e; reflexivity. Qed.

Lemma connect_clause_catches (e : exn) :
  transport_or_protocol e = true ->
  catches [C_SMTPConnectError; C_SMTPException; C_socket_error] e = true.
Proof. destruct e; simpl; auto. Qed.

Ltac step_binds H :=
  repeat match type of H with
  | bind ?m ?k ?s = _ =>
      let E := fresh "E" in
      destruct (m s) as [[?|?] ?] eqn:E;
      [rewrite (bind_ok E) in H|rewrite (bind_raise E) in H; try discriminate]
  | (match ?x with (a, b) => _ end) _ = _ => destruct x
  | (let (a, b) := ?x in _) _ = _ => destruct x
  end.

Lemma dialogue_classifies server email helo st c st' :
  dialogue net server email helo st = (Ok c, st') -> exists code, c = classify code.
Proof.
  unfold dialogue. intros H. step_binds H.
  inversion H. eauto.
Qed.

Lemma session_classifies email helo h st c st' :
  session net email helo h st = (Ok c, st') -> exists code, c = classify code.
Proof.
  unfold session. intros H. step_binds H.
  eapply dialogue_classifies. exact H.
Qed.

(** A round whose exchange returns a status returns it, in the same state. *)
Lemma attempt_of_session_ok email helo h st c st' :
  session net email helo h st = (Ok c, st') ->
  attempt net email helo h st = (Ok (Return c), st').
Proof.
  unfold session, attempt. intros H.
  destruct (call (EvConnect h) (SMTP net h) st) as [[[]|e] st1] eqn:Ec.
  - rewrite (bind_ok Ec) in H.
    apply try_ok. rewrite (bind_ok Ec).
    apply try_ok. rewrite (bind_ok H). reflexivity.
  - rewrite (bind_raise Ec) in H. discriminate.
Qed.

(** A round whose exchange raises a transport or protocol exception ends
    with [continue]. *)
Lemma attempt_of_session_raise email helo h st e st' :
  session net email helo h st = (Raise e, st') ->
  transport_or_protocol e = true ->
  attempt net email helo h st = (Ok Continue, after_round net email helo h st).
Proof.
  intros H Htp.
  assert (G : exists st2, attempt net email helo h st = (Ok Continue, st2)).
  { unfold session in H. unfold attempt.
    destruct (call (EvConnect h) (SMTP net h) st) as [[[]|e1] st1] eqn:Ec.
    - rewrite (bind_ok Ec) in H.
      destruct (quit_quietly_returns h st') as (st3 & Hq).
      exists st3. apply try_ok. rewrite (bind_ok Ec).
      erewrite try_raise by (apply bind_raise; exact H).
      rewrite round_handlers_catch. rewrite (bind_ok Hq). reflexivity.
    - rewrite (bind_raise Ec) in H. inversion H; subst.
      exists st'. erewrite try_raise by (apply bind_raise; exact Ec).
      cbn [handler_for]. rewrite (connect_clause_catches _ Htp). reflexivity. }
  destruct G as (st2 & G). unfold after_round. rewrite G. reflexivity.
Qed.

(** The trace of one round: the connection, then events of the exchange
    with that host only. *)
Lemma attempt_trace email helo h st r st' :
  attempt net email helo h st = (r, st') ->
  exists evs, trace st' = trace st ++ EvConnect h :: evs
              /\ Forall (session_event h) evs.
Proof.
  unfold attempt. intros H.
  destruct (call (EvConnect h) (SMTP net h) st) as [[[]|e] st1] eqn:Ec.
  - assert (T1 : trace st1 = trace st ++ [EvConnect h]).
    { unfold call in Ec. destruct (SMTP net h (world st)). inversion Ec. reflexivity. }
    match type of H with
    | try_except (bind _ (fun _ => ?inner)) _ _ = _ =>
        assert (Hin : emits (session_event h) inner)
    end.
    { apply emits_try.
      - apply emits_bind; [apply dialogue_emits|intros; apply emits_ret].
      - repeat constructor; simpl;
          (apply emits_bind; [apply quit_quietly_emits|intros; apply emits_ret]). }
    unfold try_except at 1 in H. rewrite (bind_ok Ec) in H.
    match type of H with
    | match ?x with _ => _ end = _ => destruct x as [[a|e] st2] eqn:E2
    end.
    + inversion H; subst. destruct (Hin _ _ _ E2) as (evs & T2 & F).
      exists evs. rewrite T2, T1, <- app_assoc. auto.
    + destruct (Hin _ _ _ E2) as (evs & T2 & F).
      exists evs.
      destruct (handler_for _ e) as [hd|] eqn:Eh.
      * cbn [handler_for] in Eh. destruct (catches _ e) in Eh; [|discriminate].
        inversion Eh; subst. inversion H; subst. rewrite T2, T1, <- app_assoc. auto.
      * inversion H; subst. rewrite T2, T1, <- app_assoc. auto.
  - unfold try_except in H. rewrite (bind_raise Ec) in H.
    assert (T1 : trace st1 = trace st ++ [EvConnect h]).
    { unfold call in Ec. destruct (SMTP net h (world st)). inversion Ec. reflexivity. }
    exists []. split; auto.
    destruct (handler_for _ e) as [hd|] eqn:Eh.
    + cbn [handler_for] in Eh. destruct (catches _ e) in Eh; [|discriminate].
      inversion Eh; subst. inversion H; subst. exact T1.
    + inversion H; subst. exact T1.
Qed.

Lemma attempt_connects email helo h st r st' :
  attempt net email helo h st = (r, st') ->
  connects (trace st') = connects (trace st) ++ [h].
Proof.
  intros H. apply attempt_trace in H as (evs & -> & F).
  rewrite connects_app. simpl.
  destruct (session_events_quiet _ _ F) as [-> _]. reflexivity.
Qed.

Lemma get_local_helo_returns st :
  exists helo st', get_local_helo net st = (Ok helo, st')
                   /\ trace st' = trace st ++ [EvGetfqdn].
Proof.
  unfold get_local_helo, try_except, bind, call, ret.
  destruct (getfqdn net (world st)) as [[h|e] w']; simpl; eauto.
Qed.

Lemma get_local_helo_trace st r st' :
  get_local_helo net st = (r, st') -> trace st' = trace st ++ [EvGetfqdn].
Proof.
  destruct (get_local_helo_returns st) as (helo & st1 & -> & T).
  intros H. inversion H; subst. exact T.
Qed.

Lemma try_hosts_skipped email helo pre rest st st1 :
  skipped net email helo pre st st1 ->
  try_hosts net email helo (pre ++ rest) st = try_hosts net email helo rest st1
  /\ connects (trace st1) = connects (trace st) ++ pre.
Proof.
  induction 1 as [st|h hs st st1 st2 Hh Hs [IH1 IH2]].
  - rewrite app_nil_r. auto.
  - cbn [app try_hosts]. rewrite (bind_ok Hh). split; [exact IH1|].
    rewrite IH2, (attempt_connects _ _ _ _ _ _ Hh), <- app_assoc. reflexivity.
Qed.

Lemma all_raise_unverifiable email helo hosts st :
  all_raise net email helo hosts st ->
  exists st', try_hosts net email helo hosts st = (Ok Unverifiable, st')
              /\ connects (trace st') = connects (trace st) ++ hosts.
Proof.
  induction 1 as [st|h hs st e st1 Hs Htp Hrest (st' & IH1 & IH2)].
  - exists st. rewrite app_nil_r. auto.
  - pose proof (attempt_of_session_raise _ _ _ _ _ _ Hs Htp) as Ha.
    exists st'. cbn [try_hosts]. rewrite (bind_ok Ha). split; [exact IH1|].
    rewrite IH2, (attempt_connects _ _ _ _ _ _ Ha), <- app_assoc. reflexivity.
Qed.

Lemma check_smtp_nonempty email hosts :
  hosts <> [] ->
  check_smtp net email hosts
  = bind (get_local_helo net) (fun helo => try_hosts net email helo hosts).
Proof. destruct hosts; [congruence|reflexivity]. Qed.

(** C2. When the loop has reached a host [h] (the rounds of the hosts
    before it ended with [continue]) and the exchange with [h] runs to its
    classification without raising, [check_smtp] returns that
    classification, whichever it is, in the state the exchange ended in: the
    hosts connected to are those before [h] and [h], and none after it. *)
Theorem check_smtp_first_answer_is_final email pre h post st0 helo st1 st2 c st3 :
  get_local_helo net st0 = (Ok helo, st1) ->
  skipped net email helo pre st1 st2 ->
  session net email helo h st2 = (Ok c, st3) ->
  check_smtp net email (pre ++ h :: post) st0 = (Ok c, st3)
  /\ connects (trace st3) = connects (trace st0) ++ pre ++ [h]
  /\ exists code, c = classify code.
Proof.
  intros Hh Hs Hc.
  pose proof (attempt_of_session_ok _ _ _ _ _ _ Hc) as Ha.
  destruct (try_hosts_skipped _ _ _ (h :: post) _ _ Hs) as [E1 E2].
  split; [|split].
  - rewrite check_smtp_nonempty by (destruct pre; discriminate).
    rewrite (bind_ok Hh), E1. cbn [try_hosts]. rewrite (bind_ok Ha). reflexivity.
  - rewrite (attempt_connects _ _ _ _ _ _ Ha), E2, (get_local_helo_trace _ _ _ Hh).
    rewrite connects_app. simpl. rewrite app_nil_r, <- app_assoc. reflexivity.
  - eapply session_classifies. exact Hc.
Qed.

(** C3. With no host, [check_smtp] returns [Unverifiable] at once. When the
    exchange with a host raises a transport or protocol exception, the loop
    goes on with the next host of the list, having connected to this one.
    When the exchange with every host raises such an exception, the result
    is [Unverifiable], and the hosts were connected to in the order of the
    list. *)
Theorem check_smtp_next_host_on_exception email :
  (forall st, check_smtp net email [] st = (Ok Unverifiable, st))
  /\ (forall helo h rest st e st1,
        session net email helo h st = (Raise e, st1) ->
        transport_or_protocol e = true ->
        try_hosts net email helo (h :: rest) st
        = try_hosts net email helo rest (after_round net email helo h st)
        /\ connects (trace (after_round net email helo h st))
           = connects (trace st) ++ [h])
  /\ (forall hosts st0 helo st1,
        get_local_helo net st0 = (Ok helo, st1) ->
        all_raise net email helo hosts st1 ->
        exists st', check_smtp net email hosts st0 = (Ok Unverifiable, st')
                    /\ connects (trace st') = connects (trace st0) ++ hosts).
Proof.
  split; [reflexivity|]. split.
  - intros helo h rest st e st1 Hs Htp.
    pose proof (attempt_of_session_raise _ _ _ _ _ _ Hs Htp) as Ha.
    split.
    + cbn [try_hosts]. rewrite (bind_ok Ha). reflexivity.
    + eapply attempt_connects; exact Ha.
  - intros hosts st0 helo st1 Hh Hall.
    destruct hosts as [|h hs].
    + exists st0. rewrite app_nil_r. auto.
    + destruct (all_raise_unverifiable _ _ _ _ Hall) as (st' & E1 & E2).
      exists st'. rewrite check_smtp_nonempty by discriminate.
      rewrite (bind_ok Hh). split; [exact E1|].
      rewrite E2, (get_local_helo_trace _ _ _ Hh), connects_app. simpl.
      rewrite app_nil_r. reflexivity.
Qed.

(** C1. The overall status of a row is [InvalidSyntax] exactly when the syntax
    check returned false; otherwise it is [Valid] exactly when the domain
    had MX records and the mailbox status is [Exists], and [RiskyOrInvalid]
    in every other case. *)
Theorem verify_row_overall_status cell st r st' :
  verify_row net idna cell st = (Ok r, st') ->
  SyntaxValid r = check_syntax (strip cell)
  /\ (OverallStatus_of r = InvalidSyntax <-> SyntaxValid r = false)
  /\ (SyntaxValid r = true ->
      (OverallStatus_of r = Valid
       <-> DomainHasMX r = true /\ MailboxExists r = Exists)
      /\ (OverallStatus_of r <> Valid -> OverallStatus_of r = RiskyOrInvalid)).
Proof.
  unfold verify_row. destruct (check_syntax (strip cell)) eqn:Hsyn.
  - intros H. step_binds H.
    inversion H; subst; clear H. simpl.
    destruct b, m; simpl; repeat split; intros; try discriminate; try tauto;
      try congruence; intuition discriminate.
  - intros H. inversion H; subst; clear H. simpl.
    repeat split; intros; try discriminate; auto.
Qed.

(** C8. For an address that fails the syntax check, the row has
    [OverallStatus = InvalidSyntax], [DomainHasMX = false] and
    [MailboxExists = Unverifiable], and the state is the one before: no
    operation of the world was called, whatever the world is. *)
Theorem verify_row_invalid_syntax cell st :
  check_syntax (strip cell) = false ->
  verify_row net idna cell st
  = (Ok {| Email := strip cell; SyntaxValid := false; DomainHasMX := false;
           MailboxExists := Unverifiable; OverallStatus_of := InvalidSyntax |},
     st).
Proof.
  intros H. unfold verify_row. rewrite H. reflexivity.
Qed.

(** *** The resolver *)

(** When [dns.resolver.Resolver()] raises, the second handler returns
    [None]: nothing was asked, the state is the one before. *)
Lemma check_mx_records_no_resolver domain st e :
  Resolver net (world st) = Raise e ->
  check_mx_records net idna domain st = (Ok None, st).
Proof.
  intros H. unfold check_mx_records, try_except, bind, consult, call, ret.
  rewrite H. cbn [handler_for].
  destruct (catches [C_NoAnswer; C_NXDOMAIN; C_Timeout] e); simpl; reflexivity.
Qed.

Lemma check_mx_records_answers domain st u answers w' :
  Resolver net (world st) = Ok u ->
  resolve_MX net (_normalize_domain idna domain) (world st) = (Ok answers, w') ->
  check_mx_records net idna domain st
  = (Ok (mx_hosts answers),
     {| world := w';
        trace := trace st ++ [EvResolveMX (_normalize_domain idna domain)] |}).
Proof.
  intros Hc H. unfold check_mx_records, try_except, bind, consult, call, ret.
  rewrite Hc, H. reflexivity.
Qed.

(** When the lookup raises, one of the two handlers returns [None]. *)
Lemma check_mx_records_lookup_raises domain st u e w' :
  Resolver net (world st) = Ok u ->
  resolve_MX net (_normalize_domain idna domain) (world st) = (Raise e, w') ->
  check_mx_records net idna domain st
  = (Ok None,
     {| world := w';
        trace := trace st ++ [EvResolveMX (_normalize_domain idna domain)] |}).
Proof.
  intros Hc H. unfold check_mx_records, try_except, bind, consult, call, ret.
  rewrite Hc, H. cbn [handler_for].
  destruct (catches [C_NoAnswer; C_NXDOMAIN; C_Timeout] e); simpl; reflexivity.
Qed.

(** Every failure, of the constructor or of the lookup, is folded into
    [None]; the lookup is made exactly when the constructor returned. *)
Lemma check_mx_records_returns domain st :
  exists r st',
    check_mx_records net idna domain st = (Ok r, st')
    /\ match Resolver net (world st) with
       | Ok _ => trace st' = trace st ++ [EvResolveMX (_normalize_domain idna domain)]
       | Raise _ => st' = st /\ r = None
       end.
Proof.
  destruct (Resolver net (world st)) as [u|e0] eqn:Hc.
  - destruct (resolve_MX net (_normalize_domain idna domain) (world st))
      as [[answers|e] w'] eqn:E.
    + rewrite (check_mx_records_answers _ _ _ _ _ Hc E). eauto.
    + rewrite (check_mx_records_lookup_raises _ _ _ _ _ Hc E). eauto.
  - rewrite (check_mx_records_no_resolver _ _ _ Hc). eauto.
Qed.

(** C5. The hosts the resolver returns are the exchanges of the surviving
    entries, in ascending order of preference; entries of one preference
    keep the order they had in the DNS answer. *)
Theorem check_mx_records_sorted_stable domain st answers w' hosts st' :
  resolve_MX net (_normalize_domain idna domain) (world st) = (Ok answers, w') ->
  check_mx_records net idna domain st = (Ok (Some hosts), st') ->
  exists entries,
    hosts = map snd entries
    /\ Permutation (mx_entries answers) entries
    /\ StronglySorted pref_le entries
    /\ forall p, with_pref p entries = with_pref p (mx_entries answers).
Proof.
  intros Hr H.
  destruct (Resolver net (world st)) as [u|e] eqn:Hc;
    [|rewrite (check_mx_records_no_resolver _ _ _ Hc) in H; discriminate H].
  rewrite (check_mx_records_answers _ _ _ _ _ Hc Hr) in H.
  unfold mx_hosts in H. exists (sort_by_key (mx_entries answers)).
  split; [|split; [apply sort_by_key_perm|split;
                   [apply sort_by_key_sorted|intros; apply sort_by_key_stable]]].
  destruct (mx_entries answers); [discriminate|]. inversion H. reflexivity.
Qed.

(** C6. A record whose exchange, the trailing root dot stripped, is empty or
    the root is left out of the entries; no entry that is kept has such an
    exchange; and when every record of the answer is left out, a lone Null
    MX included, the resolver returns [None]. *)
Theorem check_mx_records_null_mx :
  (forall pre r post,
      null_exchange (exchange r) = true ->
      mx_entries (pre ++ r :: post) = mx_entries (pre ++ post))
  /\ (forall answers,
        Forall (fun e => snd e <> [] /\ snd e <> s!".") (mx_entries answers))
  /\ (forall domain st answers w',
        resolve_MX net (_normalize_domain idna domain) (world st) = (Ok answers, w') ->
        forallb (fun r => null_exchange (exchange r)) answers = true ->
        fst (check_mx_records net idna domain st) = Ok None).
Proof.
  split; [|split].
  - intros pre r post Hr.
    change (r :: post) with ([r] ++ post).
    rewrite !mx_entries_app, (mx_entries_null _ Hr). reflexivity.
  - exact mx_entries_usable.
  - intros domain st answers w' Hres Hall.
    destruct (Resolver net (world st)) as [u|e] eqn:Hc;
      [|rewrite (check_mx_records_no_resolver _ _ _ Hc); reflexivity].
    rewrite (check_mx_records_answers _ _ _ _ _ Hc Hres). cbn [fst].
    unfold mx_hosts. rewrite (mx_entries_all_null _ Hall). reflexivity.
Qed.

(** *** No lookup during the probe *)

Lemma emits_weaken A (P Q : event -> Prop) (m : M W A) :
  (forall ev, P ev -> Q ev) -> emits P m -> emits Q m.
Proof.
  intros HPQ Hm st r st' H. destruct (Hm _ _ _ H) as (evs & T & F).
  exists evs. split; [exact T|]. eapply Forall_impl; eauto.
Qed.

Lemma attempt_emits email helo h : emits not_lookup (attempt net email helo h).
Proof.
  intros st r st' H. apply attempt_trace in H as (evs & T & F).
  exists (EvConnect h :: evs). split; [exact T|].
  constructor; [exact I|]. eapply Forall_impl; [|exact F].
  intros ev Hev. destruct ev; simpl in *; auto.
Qed.

Lemma try_hosts_emits email helo hosts :
  emits not_lookup (try_hosts net email helo hosts).
Proof.
  induction hosts as [|h hs IH]; cbn [try_hosts].
  - apply emits_ret.
  - apply emits_bind; [apply attempt_emits|].
    intros [s|]; [apply emits_ret|exact IH].
Qed.

Lemma check_smtp_emits email hosts : emits not_lookup (check_smtp net email hosts).
Proof.
  unfold check_smtp. destruct hosts; [apply emits_ret|].
  apply emits_bind; [|intros; apply try_hosts_emits].
  intros st r st' H. apply get_local_helo_trace in H.
  exists [EvGetfqdn]. split; [exact H|]. repeat constructor.
Qed.

Lemma not_lookup_quiet evs : Forall not_lookup evs -> lookups evs = [].
Proof.
  induction 1 as [|ev evs Hev _ IH]; [reflexivity|].
  destruct ev; simpl in *; auto; contradiction.
Qed.

(** *** The orchestrator *)

(** C9. For an address that passes the syntax check, the second piece of
    [email.split('@')], which the orchestrator takes as the domain, is the
    part of the address after its last [@], the address having exactly one
    [@]. That domain is what the resolver is given: when
    [dns.resolver.Resolver()] returns, the one DNS lookup of the row asks
    for it (normalized); when the constructor raises, the row makes no
    lookup at all. *)
Theorem verify_row_domain cell st :
  check_syntax (strip cell) = true ->
  exists domain,
    nth_error (split_on "@" (strip cell)) 1 = Some domain
    /\ after_last "@" (strip cell) = Some domain
    /\ count_occ ascii_dec (strip cell) "@"%char = 1
    /\ lookups (trace (snd (verify_row net idna cell st)))
       = lookups (trace st)
         ++ match Resolver net (world st) with
            | Ok _ => [_normalize_domain idna domain]
            | Raise _ => []
            end.
Proof.
  intros Hsyn.
  destruct (check_syntax_one_at _ Hsyn) as (local & rest & E & Hl & Hr).
  assert (Hsplit : nth_error (split_on "@" (strip cell)) 1 = Some rest).
  { rewrite E, (split_on_app _ _ _ Hl), (split_on_lacks _ _ Hr). reflexivity. }
  exists rest. split; [exact Hsplit|]. split; [|split].
  - rewrite E. apply after_last_app. exact Hr.
  - rewrite E, count_occ_app. cbn [count_occ].
    destruct (ascii_dec "@" "@") as [_|N]; [|congruence].
    rewrite (count_occ_lacks _ _ Hl), (count_occ_lacks _ _ Hr). reflexivity.
  - unfold verify_row. rewrite Hsyn.
    assert (Hidx : index (W:=W) (split_on "@" (strip cell)) 1 st = (Ok rest, st)).
    { unfold index. rewrite Hsplit. reflexivity. }
    rewrite (bind_ok Hidx).
    destruct (check_mx_records_returns rest st) as (mxr & st1 & Hmx & T1).
    rewrite (bind_ok Hmx).
    assert (L1 : lookups (trace st1)
                 = lookups (trace st)
                   ++ match Resolver net (world st) with
                      | Ok _ => [_normalize_domain idna rest]
                      | Raise _ => []
                      end).
    { destruct (Resolver net (world st)).
      - rewrite T1, lookups_app. reflexivity.
      - destruct T1 as [-> _]. rewrite app_nil_r. reflexivity. }
    match goal with
    | |- context [bind ?m ?k st1] =>
        assert (Hm : emits not_lookup m);
        [|destruct (m st1) as [[[b s0]|e] st2] eqn:E2;
          [rewrite (bind_ok E2)|rewrite (bind_raise E2)];
          destruct (Hm _ _ _ E2) as (evs & T2 & F); cbn [snd ret];
          rewrite T2, lookups_app, (not_lookup_quiet _ F), app_nil_r;
          exact L1]
    end.
    destruct mxr as [[|h hs]|]; try apply emits_ret.
    apply emits_bind; [apply check_smtp_emits|intros; apply emits_ret].
Qed.

(** *** The row is always produced, unless a connection raises something
        that is neither an SMTP exception nor a socket error *)

Section Totality.

Hypothesis connect_raises :
  forall h w e w', SMTP net h w = (Raise e, w') -> transport_or_protocol e = true.

Lemma attempt_returns email helo h st :
  exists f st', attempt net email helo h st = (Ok f, st').
Proof.
  unfold attempt.
  destruct (call (EvConnect h) (SMTP net h) st) as [[[]|e] st1] eqn:Ec.
  - destruct (dialogue net h email helo st1) as [[s|e] st2] eqn:Ed.
    + exists (Return s), st2. apply try_ok. rewrite (bind_ok Ec).
      apply try_ok. rewrite (bind_ok Ed). reflexivity.
    + destruct (quit_quietly_returns h st2) as (st3 & Hq).
      exists Continue, st3. apply try_ok. rewrite (bind_ok Ec).
      erewrite try_raise by (apply bind_raise; exact Ed).
      rewrite round_handlers_catch, (bind_ok Hq). reflexivity.
  - exists Continue, st1.
    erewrite try_raise by (apply bind_raise; exact Ec).
    assert (Htp : transport_or_protocol e = true).
    { unfold call in Ec. destruct (SMTP net h (world st)) as [r w'] eqn:E.
      inversion Ec; subst. eapply connect_raises. exact E. }
    cbn [handler_for]. rewrite (connect_clause_catches _ Htp). reflexivity.
Qed.

Lemma try_hosts_returns email helo hosts st :
  exists s st', try_hosts net email helo hosts st = (Ok s, st').
Proof.
  revert st. induction hosts as [|h hs IH]; intros st; cbn [try_hosts].
  - exists Unverifiable, st. reflexivity.
  - destruct (attempt_returns email helo h st) as ([s|] & st1 & Ha);
      rewrite (bind_ok Ha).
    + exists s, st1. reflexivity.
    + apply IH.
Qed.

Lemma check_smtp_returns email hosts st :
  exists s st', check_smtp net email hosts st = (Ok s, st').
Proof.
  unfold check_smtp. destruct hosts as [|h hs].
  - exists Unverifiable, st. reflexivity.
  - destruct (get_local_helo_returns st) as (helo & st1 & Hh & _).
    rewrite (bind_ok Hh). apply try_hosts_returns.
Qed.

(** When a connection can only fail with an SMTP exception or a socket
    error, the row of a cell that is a string is produced: no exception
    leaves [verify_row]. *)
Lemma verify_row_returns cell st :
  exists r st', verify_row net idna cell st = (Ok r, st').
Proof.
  unfold verify_row. destruct (check_syntax (strip cell)) eqn:Hsyn.
  - destruct (check_syntax_one_at _ Hsyn) as (local & rest & E & Hl & Hr).
    assert (Hidx : index (W:=W) (split_on "@" (strip cell)) 1 st = (Ok rest, st)).
    { unfold index. rewrite E, (split_on_app _ _ _ Hl), (split_on_lacks _ _ Hr).
      reflexivity. }
    rewrite (bind_ok Hidx).
    destruct (check_mx_records_returns rest st) as (mxr & st1 & Hmx & _).
    rewrite (bind_ok Hmx).
    destruct mxr as [[|h hs]|].
    + unfold bind, ret. eauto.
    + destruct (check_smtp_returns (strip cell) (h :: hs) st1) as (s & st2 & Hs).
      rewrite (bind_ok (bind_ok Hs)). unfold bind, ret. eauto.
    + unfold bind, ret. eauto.
  - unfold ret. eauto.
Qed.

End Totality.

End EngineFacts.

(* ================================================================= *)
(** ** The theorems at concrete inputs *)

(** C1 on the row of [user@good.test]: its first host answers 250. *)
Lemma verify_row_overall_status_example :
  let r := {| Email := s!"user@good.test"; SyntaxValid := true; DomainHasMX := true;
              MailboxExists := Exists; OverallStatus_of := Valid |} in
  fst (verify_row test_net test_idna s!" user@good.test " start) = Ok r
  /\ (OverallStatus_of r = Valid <-> DomainHasMX r = true /\ MailboxExists r = Exists).
Proof.
  split; [vm_compute; reflexivity|].
  refine (proj1 (proj2 (proj2
    (verify_row_overall_status unit test_net test_idna s!" user@good.test " start _
       (snd (verify_row test_net test_idna s!" user@good.test " start)) _)) _)).
  - vm_compute; reflexivity.
  - reflexivity.
Defined.

(** The examples of the spec's section 8 in the scripted world. *)
Example verify_no_mx :
  fst (verify_row test_net test_idna s!"user@domain-with-no-mx.test" start)
  = Ok {| Email := s!"user@domain-with-no-mx.test"; SyntaxValid := true;
          DomainHasMX := false; MailboxExists := Unverifiable;
          OverallStatus_of := RiskyOrInvalid |}.
Proof. vm_compute. reflexivity. Qed.

Example verify_first_host_550 :
  fst (verify_row test_net test_idna s!"user@gone.test" start)
  = Ok {| Email := s!"user@gone.test"; SyntaxValid := true;
          DomainHasMX := true; MailboxExists := DoesNotExist;
          OverallStatus_of := RiskyOrInvalid |}.
Proof. vm_compute. reflexivity. Qed.

Example verify_retry_after_refused_connection :
  let r := verify_row test_net test_idna s!"user@flaky.test" start in
  fst r = Ok {| Email := s!"user@flaky.test"; SyntaxValid := true;
                DomainHasMX := true; MailboxExists := Exists;
                OverallStatus_of := Valid |}
  /\ connects (trace (snd r)) = [s!"down.test"; s!"mx.flaky.test"].
Proof. vm_compute. split; reflexivity. Qed.

(** C2 on [grey.test]: the first host refuses the connection, the second
    answers 450; the third is never connected to. *)
Lemma check_smtp_first_answer_is_final_example :
  let hosts := [s!"down.test"; s!"mx.grey.test"; s!"mx1.good.test"] in
  let run := check_smtp test_net s!"user@grey.test" hosts start in
  fst run = Ok Unverifiable
  /\ connects (trace (snd run)) = [s!"down.test"; s!"mx.grey.test"].
Proof.
  set (email := s!"user@grey.test").
  set (helo := s!"probe.example.org").
  set (st1 := snd (get_local_helo test_net start)).
  set (st2 := after_round test_net email helo s!"down.test" st1).
  set (st3 := snd (session test_net email helo s!"mx.grey.test" st2)).
  destruct (check_smtp_first_answer_is_final unit test_net email
              [s!"down.test"] s!"mx.grey.test" [s!"mx1.good.test"]
              start helo st1 st2 Unverifiable st3) as (E & C & _).
  - vm_compute; reflexivity.
  - apply skipped_cons with (st1 := st2); [vm_compute; reflexivity|apply skipped_nil].
  - vm_compute; reflexivity.
  - cbv zeta. cbn [app] in E. rewrite E. split; [reflexivity|exact C].
Defined.

(** C3 on [dead.test]: the first host refuses the connection, the second
    hangs up at the greeting. *)
Lemma check_smtp_next_host_on_exception_example :
  let hosts := [s!"down.test"; s!"broken.test"] in
  exists st',
    check_smtp test_net s!"user@dead.test" hosts start = (Ok Unverifiable, st')
    /\ connects (trace st') = connects (trace start) ++ hosts.
Proof.
  set (email := s!"user@dead.test").
  set (helo := s!"probe.example.org").
  set (st1 := snd (get_local_helo test_net start)).
  refine (proj2 (proj2 (check_smtp_next_host_on_exception unit test_net email))
            [s!"down.test"; s!"broken.test"] start helo st1 _ _).
  - vm_compute; reflexivity.
  - eapply all_raise_cons with (e := socket_error);
      [vm_compute; reflexivity|reflexivity|].
    eapply all_raise_cons with (e := SMTPServerDisconnected);
      [vm_compute; reflexivity|reflexivity|].
    apply all_raise_nil.
Defined.

(** C5 on [good.test]: preferences 20, 10, 10 in the answer. *)
Lemma check_mx_records_sorted_stable_example :
  let answers := [mx 20 "mx2.good.test."; mx 10 "mx1.good.test."; mx 10 "mx0.good.test."] in
  let hosts := [s!"mx1.good.test"; s!"mx0.good.test"; s!"mx2.good.test"] in
  fst (check_mx_records test_net test_idna s!"good.test" start) = Ok (Some hosts)
  /\ exists entries,
       hosts = map snd entries
       /\ Permutation (mx_entries answers) entries
       /\ StronglySorted pref_le entries
       /\ forall p, with_pref p entries = with_pref p (mx_entries answers).
Proof.
  split; [vm_compute; reflexivity|].
  apply (check_mx_records_sorted_stable unit test_net test_idna s!"good.test" start
           _ tt _ (snd (check_mx_records test_net test_idna s!"good.test" start))).
  - vm_compute; reflexivity.
  - vm_compute; reflexivity.
Defined.

(** C6 on [nullmx.test], whose only record is the Null MX. *)
Lemma check_mx_records_null_mx_example :
  fst (check_mx_records test_net test_idna s!"nullmx.test" start) = Ok None.
Proof.
  apply (proj2 (proj2 (check_mx_records_null_mx unit test_net test_idna))
           s!"nullmx.test" start [mx 0 "."] tt).
  - vm_compute; reflexivity.
  - vm_compute; reflexivity.
Defined.

(** C8 on the spec's example [user@ex ample.com]. *)
Lemma verify_row_invalid_syntax_example :
  check_syntax (strip s!"user@ex ample.com") = false
  /\ verify_row test_net test_idna s!"user@ex ample.com" start
     = (Ok {| Email := strip s!"user@ex ample.com"; SyntaxValid := false;
              DomainHasMX := false; MailboxExists := Unverifiable;
              OverallStatus_of := InvalidSyntax |},
        start).
Proof.
  split; [vm_compute; reflexivity|].
  apply (verify_row_invalid_syntax unit test_net test_idna). vm_compute; reflexivity.
Defined.

(** C9 on [user@good.test]. *)
Lemma verify_row_domain_example :
  check_syntax (strip s!"user@good.test") = true
  /\ exists domain,
       nth_error (split_on "@" (strip s!"user@good.test")) 1 = Some domain
       /\ after_last "@" (strip s!"user@good.test") = Some domain
       /\ count_occ ascii_dec (strip s!"user@good.test") "@"%char = 1
       /\ lookups (trace (snd (verify_row test_net test_idna s!"user@good.test" start)))
          = lookups (trace start) ++ [_normalize_domain test_idna domain].
Proof.
  split; [vm_compute; reflexivity|].
  apply (verify_row_domain unit test_net test_idna). vm_compute; reflexivity.
Defined.

(** C10 on [user@example.com]. *)
Lemma check_syntax_newline_appended_example :
  check_syntax s!"user@example.com" = true
  /\ check_syntax (s!"user@example.com" ++ [LF]) = true
  /\ ~ address_shape (s!"user@example.com" ++ [LF]).
Proof.
  split; [vm_compute; reflexivity|].
  apply check_syntax_newline_appended; vm_compute; reflexivity.
Defined.


(* ================================================================= *)
(** * Further properties of the engine *)

(** ** The steps of one exchange *)

Section ExchangeFacts.
Variable W : Type.
Variable net : Net W.

Lemma call_inv A ev (op : W -> outcome A * W) st r st' :
  call ev op st = (r, st') ->
  exists w', op (world st) = (r, w')
             /\ st' = {| world := w'; trace := trace st ++ [ev] |}.
Proof.
  unfold call. destruct (op (world st)) as [r0 w']. intros H.
  inversion H; subst. eauto.
Qed.

Lemma call_trace A ev (op : W -> outcome A * W) st r st' :
  call ev op st = (r, st') -> trace st' = trace st ++ [ev].
Proof.
  intros H. apply call_inv in H as (w' & _ & ->). reflexivity.
Qed.

Lemma quit_quietly_trace server st r st' :
  quit_quietly net server st = (r, st') ->
  r = Ok tt /\ trace st' = trace st ++ [EvQuit server].
Proof.
  unfold quit_quietly, try_except. intros H.
  destruct (call (EvQuit server) (quit net server) st) as [[[]|e] st1] eqn:E;
    pose proof (call_trace _ _ _ _ _ _ E) as T.
  - inversion H; subst. auto.
  - cbn [handler_for catches existsb isinstance orb] in H.
    unfold ret in H. inversion H; subst. auto.
Qed.

(** The step between the first EHLO and MAIL FROM. A failure of the upgrade
    that is an [SMTPException] is dropped; anything else it raises, and
    anything HELO raises, leaves the exchange. *)
Lemma greeting_step server local_helo code features st r st' :
  (if ((200 <=? code) && (code <? 300))%Z && has_extn features s!"starttls"
   then try_except
          (bind (call (EvStarttls server) (starttls net server)) (fun _ =>
           bind (call (EvEhlo server) (ehlo net server)) (fun _ => ret tt)))
          [ ([C_SMTPException], ret tt) ]
   else bind (call (EvHelo server local_helo) (helo net server local_helo))
             (fun _ => ret tt)) st = (r, st') ->
  exists evs, trace st' = trace st ++ evs
              /\ greeting_events server local_helo code features evs.
Proof.
  unfold greeting_events, offers_starttls.
  destruct (((200 <=? code) && (code <? 300))%Z && has_extn features s!"starttls").
  - unfold try_except. intros H.
    destruct (call (EvStarttls server) (starttls net server) st) as [[[]|e] st1] eqn:E1;
      pose proof (call_trace _ _ _ _ _ _ E1) as T1.
    + rewrite (bind_ok E1) in H.
      destruct (call (EvEhlo server) (ehlo net server) st1) as [[x|e] st2] eqn:E2;
        pose proof (call_trace _ _ _ _ _ _ E2) as T2.
      * rewrite (bind_ok E2) in H. unfold ret in H. inversion H; subst.
        exists [EvStarttls server; EvEhlo server]. rewrite T2, T1, <- app_assoc. auto.
      * rewrite (bind_raise E2) in H.
        exists [EvStarttls server; EvEhlo server]. split; [|auto].
        cbn [handler_for] in H. destruct (catches [C_SMTPException] e);
          unfold ret in H; inversion H; subst; rewrite T2, T1, <- app_assoc; auto.
    + rewrite (bind_raise E1) in H.
      exists [EvStarttls server]. split; [|auto].
      cbn [handler_for] in H. destruct (catches [C_SMTPException] e);
        unfold ret in H; inversion H; subst; exact T1.
  - intros H.
    destruct (call (EvHelo server local_helo) (helo net server local_helo) st)
      as [[x|e] st1] eqn:E1; pose proof (call_trace _ _ _ _ _ _ E1) as T1.
    + rewrite (bind_ok E1) in H. unfold ret in H. inversion H; subst. eauto.
    + rewrite (bind_raise E1) in H. inversion H; subst. eauto.
Qed.

Lemma greeting_events_before_quit server local_helo code features evs :
  greeting_events server local_helo code features evs ->
  Forall (before_quit server) evs.
Proof.
  unfold greeting_events, before_quit.
  destruct (offers_starttls code features).
  - intros [->| ->]; repeat constructor; simpl; auto; discriminate.
  - intros ->. repeat constructor; simpl; auto; discriminate.
Qed.

(** The trace of the dialogue. When it returns, the trace is EHLO, the
    greeting step, MAIL FROM, RCPT TO and QUIT, and the status classifies
    the reply to RCPT TO; when it raises, no QUIT has been sent yet. *)
Lemma dialogue_trace server email local_helo st r st' :
  dialogue net server email local_helo st = (r, st') ->
  exists evs, trace st' = trace st ++ evs /\
    match r with
    | Ok c =>
        exists code0 features w0 greet code w w',
          ehlo net server (world st) = (Ok (code0, features), w0)
          /\ greeting_events server local_helo code0 features greet
          /\ evs = EvEhlo server :: greet
                   ++ [EvMail server (sender_for local_helo);
                       EvRcpt server email; EvQuit server]
          /\ rcpt net server email w = (Ok code, w')
          /\ c = classify code
    | Raise e => Forall (before_quit server) evs
    end.
Proof.
  unfold dialogue. intros H.
  assert (B : forall ev, session_event server ev -> ev <> EvQuit server ->
                         before_quit server ev) by (intros; split; auto).
  destruct (call (EvEhlo server) (ehlo net server) st) as [[[code0 features]|e] st1] eqn:E1;
    pose proof (call_trace _ _ _ _ _ _ E1) as T1;
    [rewrite (bind_ok E1) in H|rewrite (bind_raise E1) in H; inversion H; subst;
     exists [EvEhlo server]; split; [exact T1|repeat constructor; simpl; auto; discriminate]].
  match type of H with
  | bind ?g _ st1 = _ => destruct (g st1) as [[[]|e] st2] eqn:E2
  end;
    destruct (greeting_step _ _ _ _ _ _ _ E2) as (greet & T2 & G);
    pose proof (greeting_events_before_quit _ _ _ _ _ G) as GB;
    [rewrite (bind_ok E2) in H|rewrite (bind_raise E2) in H; inversion H; subst;
     exists (EvEhlo server :: greet); split;
     [rewrite T2, T1, <- app_assoc; reflexivity
     |constructor; [apply B; simpl; auto; discriminate|exact GB]]].
  change (s!"no-reply@" ++ or_default (last (split_first "." local_helo) []) s!"localhost")
    with (sender_for local_helo) in H. cbv zeta in H.
  destruct (call (EvMail server (sender_for local_helo))
              (mail net server (sender_for local_helo)) st2) as [[x|e] st3] eqn:E3;
    pose proof (call_trace _ _ _ _ _ _ E3) as T3;
    [rewrite (bind_ok E3) in H|rewrite (bind_raise E3) in H; inversion H; subst;
     exists (EvEhlo server :: greet ++ [EvMail server (sender_for local_helo)]); split;
     [rewrite T3, T2, T1, <- !app_assoc; reflexivity
     |constructor; [apply B; simpl; auto; discriminate|];
      apply Forall_app; split; [exact GB|];
      repeat constructor; simpl; auto; discriminate]].
  destruct (call (EvRcpt server email) (rcpt net server email) st3) as [[code|e] st4] eqn:E4;
    pose proof (call_trace _ _ _ _ _ _ E4) as T4;
    [rewrite (bind_ok E4) in H|rewrite (bind_raise E4) in H; inversion H; subst;
     exists (EvEhlo server :: greet ++ [EvMail server (sender_for local_helo);
                                        EvRcpt server email]); split;
     [rewrite T4, T3, T2, T1, <- !app_assoc; reflexivity
     |constructor; [apply B; simpl; auto; discriminate|];
      apply Forall_app; split; [exact GB|];
      repeat constructor; simpl; auto; discriminate]].
  destruct (quit_quietly net server st4) as [r5 st5] eqn:E5.
  destruct (quit_quietly_trace _ _ _ _ E5) as [-> T5].
  rewrite (bind_ok E5) in H. unfold ret in H. inversion H; subst.
  exists (EvEhlo server :: greet
          ++ [EvMail server (sender_for local_helo); EvRcpt server email; EvQuit server]).
  split; [rewrite T5, T4, T3, T2, T1, <- !app_assoc; reflexivity|].
  apply call_inv in E1 as (w0 & E1 & _).
  apply call_inv in E4 as (w4 & E4 & _).
  exists code0, features, w0, greet, code, (world st3), w4. auto.
Qed.




(** A round returns a status only when its exchange returned it. *)
Lemma attempt_return_inv email local_helo h st c st' :
  attempt net email local_helo h st = (Ok (Return c), st') ->
  session net email local_helo h st = (Ok c, st').
Proof.
  intros H. destruct (session net email local_helo h st) as [[c1|e] st1] eqn:Es.
  - rewrite (attempt_of_session_ok _ _ _ _ _ _ _ _ Es) in H. inversion H. reflexivity.
  - exfalso. unfold session in Es.
    destruct (call (EvConnect h) (SMTP net h) st) as [[[]|e1] st2] eqn:Ec.
    + rewrite (bind_ok Ec) in Es.
      destruct (quit_quietly_returns _ net h st1) as (st3 & Hq).
      assert (Ha : attempt net email local_helo h st = (Ok Continue, st3)).
      { unfold attempt. apply try_ok. rewrite (bind_ok Ec).
        erewrite try_raise by (apply bind_raise; exact Es).
        rewrite round_handlers_catch, (bind_ok Hq). reflexivity. }
      rewrite Ha in H. discriminate H.
    + unfold attempt, try_except in H. rewrite (bind_raise Ec) in H.
      cbn [handler_for] in H.
      destruct (catches [C_SMTPConnectError; C_SMTPException; C_socket_error] e1);
        unfold ret in H; discriminate H.
Qed.

(** X5. A round closes what it opened: when the connection was made, the trace
    of the round ends with the one QUIT on it, whether the exchange returned
    or raised; when the connection failed, nothing follows it. *)
Theorem attempt_closes_connection email local_helo h st r st' :
  attempt net email local_helo h st = (r, st') ->
  match fst (SMTP net h (world st)) with
  | Ok _ =>
      exists evs, trace st' = trace st ++ EvConnect h :: evs ++ [EvQuit h]
                  /\ Forall (before_quit h) evs
  | Raise _ => trace st' = trace st ++ [EvConnect h]
  end.
Proof.
  intros H.
  destruct (call (EvConnect h) (SMTP net h) st) as [[[]|e] st1] eqn:Ec;
    destruct (call_inv _ _ _ _ _ _ Ec) as (w1 & Eop & Est1); rewrite Eop; cbn [fst].
  - assert (T1 : trace st1 = trace st ++ [EvConnect h]) by (subst st1; reflexivity).
    destruct (dialogue net h email local_helo st1) as [[c|e] st2] eqn:Ed;
      destruct (dialogue_trace _ _ _ _ _ _ Ed) as (evs & T2 & Hevs).
    + assert (Ha : attempt net email local_helo h st = (Ok (Return c), st2)).
      { apply attempt_of_session_ok. unfold session. rewrite (bind_ok Ec). exact Ed. }
      rewrite Ha in H. inversion H; subst r st'.
      destruct Hevs as (code0 & features & w0 & greet & code & w & w' & _ & G & -> & _).
      exists (EvEhlo h :: greet ++ [EvMail h (sender_for local_helo); EvRcpt h email]).
      split.
      * rewrite T2, T1, <- !app_assoc. cbn [app]. rewrite <- !app_assoc. reflexivity.
      * constructor; [split; simpl; auto; discriminate|].
        apply Forall_app. split; [eapply greeting_events_before_quit; exact G|].
        repeat constructor; simpl; auto; discriminate.
    + destruct (quit_quietly net h st2) as [rq st3] eqn:Eq.
      destruct (quit_quietly_trace _ _ _ _ Eq) as [-> T3].
      assert (Ha : attempt net email local_helo h st = (Ok Continue, st3)).
      { unfold attempt. apply try_ok. rewrite (bind_ok Ec).
        erewrite try_raise by (apply bind_raise; exact Ed).
        rewrite round_handlers_catch, (bind_ok Eq). reflexivity. }
      rewrite Ha in H. inversion H; subst r st'.
      exists evs. split; [|exact Hevs].
      rewrite T3, T2, T1, <- !app_assoc. reflexivity.
  - assert (T1 : trace st1 = trace st ++ [EvConnect h]) by (subst st1; reflexivity).
    unfold attempt, try_except in H. rewrite (bind_raise Ec) in H.
    cbn [handler_for] in H.
    destruct (catches [C_SMTPConnectError; C_SMTPException; C_socket_error] e);
      unfold ret in H; inversion H; subst; exact T1.
Qed.

Lemma try_hosts_answer email local_helo hosts st c st' :
  try_hosts net email local_helo hosts st = (Ok c, st') ->
  c = Unverifiable
  \/ exists h code w w' tr,
       In h hosts /\ rcpt net h email w = (Ok code, w')
       /\ c = classify code /\ connects (trace st') = tr ++ [h].
Proof.
  revert st. induction hosts as [|h hs IH]; intros st H; cbn [try_hosts] in H.
  - unfold ret in H. inversion H. auto.
  - destruct (attempt net email local_helo h st) as [[[c1|]|e] st1] eqn:Ea.
    + rewrite (bind_ok Ea) in H. unfold ret in H. inversion H; subst c1 st1.
      pose proof (attempt_connects _ _ _ _ _ _ _ _ Ea) as Hc.
      apply attempt_return_inv in Ea. unfold session in Ea.
      destruct (call (EvConnect h) (SMTP net h) st) as [[[]|e] st2] eqn:Ec;
        [rewrite (bind_ok Ec) in Ea|rewrite (bind_raise Ec) in Ea; discriminate].
      apply dialogue_trace in Ea
        as (evs & _ & _ & _ & _ & _ & code & w & w' & _ & _ & _ & Hr & Hcl).
      right. exists h, code, w, w', (connects (trace st)).
      repeat split; auto. left. reflexivity.
    + rewrite (bind_ok Ea) in H. apply IH in H as [H|(h' & code & w & w' & tr & Hin & R)].
      * auto.
      * right. exists h', code, w, w', tr. split; [right; exact Hin|exact R].
    + rewrite (bind_raise Ea) in H. discriminate.
Qed.

Lemma check_smtp_answer email hosts st c st' :
  check_smtp net email hosts st = (Ok c, st') ->
  c <> Unverifiable ->
  exists h code w w' tr,
    In h hosts /\ rcpt net h email w = (Ok code, w')
    /\ c = classify code /\ connects (trace st') = tr ++ [h].
Proof.
  intros H Hc. unfold check_smtp in H. destruct hosts as [|h0 hs].
  - unfold ret in H. inversion H. congruence.
  - destruct (get_local_helo_returns _ net st) as (helo & st1 & Hh & _).
    rewrite (bind_ok Hh) in H.
    apply try_hosts_answer in H as [H|H]; [congruence|exact H].
Qed.

(** X6. [check_smtp] says [Exists] or [DoesNotExist] only on the word of a
    host: a status other than [Unverifiable] classifies the reply that a
    host of the list gave to RCPT TO for this address, and that host is the
    last one connected to. *)
Theorem check_smtp_answer_sound email hosts st c st' :
  check_smtp net email hosts st = (Ok c, st') ->
  c <> Unverifiable ->
  exists h code w w' tr,
    In h hosts /\ rcpt net h email w = (Ok code, w')
    /\ c = classify code /\ connects (trace st') = tr ++ [h].
Proof.
  intros H Hc. destruct (check_smtp_answer _ _ _ _ _ H Hc) as (h & code & w & w' & tr & R).
  exists h, code, w, w', tr. exact R.
Qed.

(** X7. An exception of the connection that is neither an SMTP exception nor
    a socket error is not caught: it leaves [check_smtp] at the first host
    whose connection raises it, and no later host is tried. *)
Theorem check_smtp_propagates_connect_error email pre h post st0 helo st1 st2 e w' :
  get_local_helo net st0 = (Ok helo, st1) ->
  skipped net email helo pre st1 st2 ->
  SMTP net h (world st2) = (Raise e, w') ->
  transport_or_protocol e = false ->
  check_smtp net email (pre ++ h :: post) st0
  = (Raise e, {| world := w'; trace := trace st2 ++ [EvConnect h] |}).
Proof.
  intros Hh Hs Hc Htp.
  rewrite check_smtp_nonempty by (destruct pre; discriminate).
  rewrite (bind_ok Hh).
  destruct (try_hosts_skipped _ _ _ _ _ (h :: post) _ _ Hs) as [-> _].
  cbn [try_hosts].
  assert (Ec : call (EvConnect h) (SMTP net h) st2
               = (Raise e, {| world := w'; trace := trace st2 ++ [EvConnect h] |})).
  { unfold call. rewrite Hc. reflexivity. }
  apply bind_raise. unfold attempt.
  erewrite try_raise by (apply bind_raise; exact Ec).
  cbn [handler_for].
  assert (Hn : catches [C_SMTPConnectError; C_SMTPException; C_socket_error] e = false)
    by (revert Htp; clear; destruct e; vm_compute; congruence).
  rewrite Hn. reflexivity.
Qed.

(** X8. A failed TLS upgrade. When the first EHLO is answered 2xx with
    STARTTLS announced and [starttls] raises, the dialogue goes on with MAIL
    FROM on the same connection if what was raised is an [SMTPException];
    anything else (a socket or TLS error) leaves the dialogue. *)
Theorem dialogue_failed_starttls server email local_helo st code features w1 e w2 :
  ehlo net server (world st) = (Ok (code, features), w1) ->
  offers_starttls code features = true ->
  starttls net server w1 = (Raise e, w2) ->
  let st2 := {| world := w2; trace := trace st ++ [EvEhlo server; EvStarttls server] |} in
  dialogue net server email local_helo st
  = if isinstance e C_SMTPException
    then exchange_tail net server email local_helo st2
    else (Raise e, st2).
Proof.
  intros E1 Hoff E2 st2. unfold dialogue.
  assert (C1 : call (EvEhlo server) (ehlo net server) st
               = (Ok (code, features),
                  {| world := w1; trace := trace st ++ [EvEhlo server] |})).
  { unfold call. rewrite E1. reflexivity. }
  rewrite (bind_ok C1). unfold offers_starttls in Hoff. rewrite Hoff.
  assert (C2 : call (EvStarttls server) (starttls net server)
                 {| world := w1; trace := trace st ++ [EvEhlo server] |}
               = (Raise e, st2)).
  { unfold call. cbn [world trace]. rewrite E2. subst st2.
    rewrite <- app_assoc. reflexivity. }
  destruct (isinstance e C_SMTPException) eqn:Hi.
  - erewrite bind_ok; [reflexivity|].
    erewrite try_raise by (apply bind_raise; exact C2).
    cbn [handler_for catches existsb]. rewrite Hi. reflexivity.
  - apply bind_raise.
    erewrite try_raise by (apply bind_raise; exact C2).
    cbn [handler_for catches existsb]. rewrite Hi. reflexivity.
Qed.

Lemma sender_for_domain local_helo :
  exists d, d <> [] /\ sender_for local_helo = s!"no-reply@" ++ d.
Proof.
  unfold sender_for.
  exists (or_default (last (split_first "." local_helo) []) s!"localhost").
  split; [|reflexivity].
  destruct (last (split_first "." local_helo) []); simpl; discriminate.
Qed.

(** X9. The name used for HELO is never empty: it is what [getfqdn] returned,
    or [localhost] when that is empty or [getfqdn] raised, and nothing is
    raised. The sender built from it always has a non-empty domain. *)
Theorem get_local_helo_name st :
  exists name st',
    get_local_helo net st = (Ok name, st')
    /\ name <> []
    /\ name = match fst (getfqdn net (world st)) with
              | Ok (c :: s) => c :: s
              | _ => s!"localhost"
              end
    /\ exists d, d <> [] /\ sender_for name = s!"no-reply@" ++ d.
Proof.
  unfold get_local_helo, try_except, bind, call, ret.
  destruct (getfqdn net (world st)) as [[[|c s]|e] w']; cbn [fst handler_for catches
    existsb isinstance orb or_default];
    eexists; eexists; (split; [reflexivity|]); (split; [discriminate|]);
    (split; [reflexivity|apply sender_for_domain]).
Qed.

End ExchangeFacts.

(** ** The exchange names the resolver keeps *)

Lemma rstrip_repeat c n : rstrip c (repeat c n) = [].
Proof.
  induction n as [|n IH]; [reflexivity|].
  cbn [repeat rstrip]. rewrite IH, Ascii.eqb_refl. reflexivity.
Qed.

(** [rstrip] removes trailing copies of the character and nothing else. *)
Lemma rstrip_decomp c s : exists n, s = rstrip c s ++ repeat c n.
Proof.
  induction s as [|x s (n & IH)]; [exists 0; reflexivity|].
  cbn [rstrip]. destruct (rstrip c s) as [|y r].
  - destruct (Ascii.eqb_spec x c) as [->|Hx].
    + exists (S n). cbn [app] in *. rewrite IH at 1. reflexivity.
    + exists n. cbn [app] in *. rewrite IH at 1. reflexivity.
  - exists n. cbn [app] in *. rewrite IH at 1. reflexivity.
Qed.

Lemma rstrip_last c s s0 d : rstrip c s = s0 ++ [d] -> d <> c.
Proof.
  revert s0. induction s as [|x s IH]; intros s0 H; cbn [rstrip] in H.
  - destruct s0; discriminate.
  - destruct (rstrip c s) as [|y r].
    + destruct (Ascii.eqb_spec x c) as [->|Hx]; [destruct s0; discriminate|].
      destruct s0 as [|a [|b s0]]; inversion H; subst; exact Hx.
    + destruct s0 as [|a s0]; [inversion H|].
      inversion H; subst. eapply IH. eassumption.
Qed.

Lemma rstrip_no_trailing c s : ends_with c (rstrip c s) = false.
Proof.
  destruct (snoc_cases _ (rstrip c s)) as [E|(s0 & d & E)]; rewrite E.
  - reflexivity.
  - rewrite ends_with_snoc. apply rstrip_last in E.
    destruct (Ascii.eqb_spec d c); congruence.
Qed.

Lemma ends_with_cons c x s : s <> [] -> ends_with c (x :: s) = ends_with c s.
Proof.
  intros Hs. destruct (snoc_cases _ s) as [->|(s0 & d & ->)]; [congruence|].
  change (x :: s0 ++ [d]) with ((x :: s0) ++ [d]). rewrite !ends_with_snoc. reflexivity.
Qed.

(** [rstrip] is the only way to split off the trailing copies. *)
Lemma rstrip_unique c h n : ends_with c h = false -> rstrip c (h ++ repeat c n) = h.
Proof.
  induction h as [|x h IH]; intros He; cbn [app].
  - apply rstrip_repeat.
  - cbn [rstrip]. destruct h as [|y h].
    + cbn [app]. rewrite rstrip_repeat.
      change [x] with ([] ++ [x]) in He. rewrite ends_with_snoc in He.
      rewrite He. reflexivity.
    + rewrite ends_with_cons in He by discriminate.
      rewrite (IH He). reflexivity.
Qed.

(** The second test of the Null MX check, [exchange == '.'], never holds
    of a stripped name. *)
Lemma rstrip_never_root s : str_eqb (rstrip "." s) s!"." = false.
Proof.
  destruct (str_eqb (rstrip "." s) s!".") eqn:E; [|reflexivity].
  apply str_eqb_eq in E. change s!"." with ([] ++ ["."%char]) in E.
  apply rstrip_last in E. congruence.
Qed.

Lemma mx_entries_In p h answers :
  In (p, h) (mx_entries answers) <->
  exists r, In r answers /\ p = preference r /\ h = rstrip "." (exchange r) /\ h <> [].
Proof.
  induction answers as [|r rest IH]; cbn [mx_entries].
  - split; [intros []|intros (r & [] & _)].
  - rewrite rstrip_never_root, orb_false_r.
    destruct (str_eqb (rstrip "." (exchange r)) []) eqn:E.
    + apply str_eqb_eq in E. rewrite IH. split.
      * intros (r' & Hin & R). exists r'. split; [right; exact Hin|exact R].
      * intros (r' & [<-|Hin] & Hp & Hh & Hne); [congruence|eauto].
    + assert (Hne : rstrip "." (exchange r) <> []).
      { intros C. rewrite C in E. discriminate E. }
      cbn [In]. rewrite IH. split.
      * intros [H|(r' & Hin & R)].
        -- inversion H; subst. exists r. auto.
        -- exists r'. split; [right; exact Hin|exact R].
      * intros (r' & [<-|Hin] & Hp & Hh & Hne'); [left; congruence|right; eauto].
Qed.

Lemma mx_entries_length answers : length (mx_entries answers) <= length answers.
Proof.
  induction answers as [|r rest IH]; cbn [mx_entries length]; [lia|].
  destruct (str_eqb _ _ || str_eqb _ _); cbn [length]; lia.
Qed.

Section ResolverFacts.
Variable W : Type.
Variable net : Net W.
Variable idna : str -> option str.

Lemma check_mx_records_raise_none domain st e w' :
  resolve_MX net (_normalize_domain idna domain) (world st) = (Raise e, w') ->
  exists st', check_mx_records net idna domain st = (Ok None, st').
Proof.
  intros E. destruct (Resolver net (world st)) as [u|e0] eqn:Hc.
  - rewrite (check_mx_records_lookup_raises _ _ _ _ _ _ _ _ Hc E). eauto.
  - rewrite (check_mx_records_no_resolver _ _ _ _ _ _ Hc). eauto.
Qed.


(** X11. The hosts [check_mx_records] returns are never an empty list, and
    they are exactly the non-empty names obtained from the exchanges of the
    answer by removing their trailing dots; there are at most as many as
    answer records. *)
Theorem check_mx_records_hosts domain st answers w' hosts st' :
  resolve_MX net (_normalize_domain idna domain) (world st) = (Ok answers, w') ->
  check_mx_records net idna domain st = (Ok (Some hosts), st') ->
  hosts <> []
  /\ length hosts <= length answers
  /\ forall h, In h hosts <->
               h <> [] /\ ends_with "." h = false
               /\ exists r n, In r answers /\ exchange r = h ++ dots n.
Proof.
  intros Hr H.
  destruct (Resolver net (world st)) as [u|e] eqn:Hc;
    [|rewrite (check_mx_records_no_resolver _ _ _ _ _ _ Hc) in H; discriminate H].
  rewrite (check_mx_records_answers _ _ _ _ _ _ _ _ Hc Hr) in H.
  unfold mx_hosts in H.
  destruct (mx_entries answers) as [|e0 es] eqn:Em; [discriminate|].
  rewrite <- Em in H. inversion H; subst hosts; clear H.
  assert (P : Permutation (mx_entries answers) (sort_by_key (mx_entries answers)))
    by apply sort_by_key_perm.
  split; [|split].
  - intros C. apply map_eq_nil in C. rewrite C in P.
    apply Permutation_sym, Permutation_nil in P. congruence.
  - rewrite length_map, <- (Permutation_length P). apply mx_entries_length.
  - intros h. rewrite in_map_iff. split.
    + intros ([p h'] & <- & Hin). cbn [snd].
      apply (Permutation_in _ (Permutation_sym P)) in Hin.
      apply mx_entries_In in Hin as (r & Hin & _ & -> & Hne).
      split; [exact Hne|]. split; [apply rstrip_no_trailing|].
      destruct (rstrip_decomp "." (exchange r)) as (n & D). exists r, n. auto.
    + intros (Hne & He & r & n & Hin & D).
      exists (preference r, h). split; [reflexivity|].
      apply (Permutation_in _ P). apply mx_entries_In.
      exists r. repeat split; auto. rewrite D. symmetry. apply rstrip_unique. exact He.
Qed.

(** X12. In a world where the DNS has an answer for the domain,
    [check_mx_records] returns [None] exactly when
    [dns.resolver.Resolver()] raises, so that the answer is never asked
    for, or every exchange of the answer consists of dots only (the empty
    name and the root among them). *)
Theorem check_mx_records_none_iff domain st answers w' :
  resolve_MX net (_normalize_domain idna domain) (world st) = (Ok answers, w') ->
  (fst (check_mx_records net idna domain st) = Ok None
   <-> (exists e, Resolver net (world st) = Raise e)
       \/ forall r, In r answers -> exists n, exchange r = dots n).
Proof.
  intros Hr. destruct (Resolver net (world st)) as [u|e0] eqn:Hc;
    [|rewrite (check_mx_records_no_resolver _ _ _ _ _ _ Hc); cbn [fst];
      split; [intros _; left; exists e0; reflexivity|reflexivity]].
  rewrite (check_mx_records_answers _ _ _ _ _ _ _ _ Hc Hr). cbn [fst].
  assert (Hno : (exists e, Ok u = Raise e) \/
                (forall r, In r answers -> exists n, exchange r = dots n)
                <-> forall r, In r answers -> exists n, exchange r = dots n).
  { split; [intros [[e C]|H]; [discriminate C|exact H]|intros H; right; exact H]. }
  rewrite Hno. clear Hno.
  unfold mx_hosts. split.
  - intros H r Hin.
    destruct (mx_entries answers) as [|e0 es] eqn:Em; [|discriminate].
    destruct (rstrip_decomp "." (exchange r)) as (n & D).
    destruct (rstrip "." (exchange r)) as [|c s] eqn:Er; [exists n; exact D|].
    exfalso.
    assert (Hin' : In (preference r, c :: s) (mx_entries answers)).
    { apply mx_entries_In. exists r. rewrite Er. repeat split; auto. discriminate. }
    rewrite Em in Hin'. exact Hin'.
  - intros H. destruct (mx_entries answers) as [|[p h] es] eqn:Em; [reflexivity|].
    exfalso.
    assert (Hin : In (p, h) (mx_entries answers)) by (rewrite Em; left; reflexivity).
    apply mx_entries_In in Hin as (r & Hin & _ & -> & Hne).
    destruct (H r Hin) as (n & D). apply Hne. rewrite D. apply rstrip_repeat.
Qed.

End ResolverFacts.

(** ** The characters of an accepted address *)

Lemma forallb_join (P : ascii -> bool) c labels :
  P c = true -> forallb (forallb P) labels = true -> forallb P (join c labels) = true.
Proof.
  intros Hc. destruct labels as [|l0 ls]; [reflexivity|].
  rewrite join_cons. cbn [forallb]. intros H.
  apply andb_true_iff in H as [H0 Hls].
  rewrite forallb_app, H0. cbn [andb].
  induction ls as [|l ls IH]; [reflexivity|].
  cbn [forallb map concat] in *. apply andb_true_iff in Hls as [Hl Hls].
  rewrite forallb_app. cbn [forallb]. rewrite Hc, Hl, (IH Hls). reflexivity.
Qed.

Lemma label_char_local c : is_alnum_or_hyphen c = true -> is_local_char c = true.
Proof. destruct c as [[] [] [] [] [] [] [] []]; intros H; try reflexivity; discriminate H. Qed.

(** X15. Every character of an accepted string is a letter, a digit, one of
    [.!#$%&'*+/=?^_`{|}~-] or [@], except that its last character may be a
    newline: no space, no control character and no character beyond ASCII
    is accepted anywhere else. *)
Theorem check_syntax_charset s :
  check_syntax s = true ->
  exists body,
    (s = body \/ s = body ++ [LF])
    /\ forallb (fun c => is_local_char c || Ascii.eqb c "@") body = true.
Proof.
  intros H. apply check_syntax_accepts in H.
  assert (G : forall w, address_shape w ->
            forallb (fun c => is_local_char c || Ascii.eqb c "@") w = true).
  { intros w (local & labels & -> & _ & Hloc & _ & Hok).
    rewrite forallb_app. apply andb_true_iff. split.
    { refine (forallb_impl _ _ _ _ _ Hloc). intros c Hc. rewrite Hc. reflexivity. }
    cbn [forallb]. apply andb_true_iff. split; [reflexivity|].
    apply forallb_join; [reflexivity|].
    refine (forallb_impl _ _ _ _ _ Hok). intros l Hl.
    refine (forallb_impl _ _ _ _ _ (label_ok_chars _ Hl)).
    intros c Hc. rewrite (label_char_local _ Hc). reflexivity. }
  destruct H as [H|(s' & -> & H)].
  - exists s. split; [left; reflexivity|apply G; exact H].
  - exists s'. split; [right; reflexivity|apply G; exact H].
Qed.

(** ** The fields of a row *)

Lemma classify_Exists_inv code : classify code = Exists -> (code = 250 \/ code = 251)%Z.
Proof.
  unfold classify.
  destruct (Z.eqb_spec code 250); [auto|].
  destruct (Z.eqb_spec code 251); [auto|]. cbn [orb].
  destruct ((code =? 550) || (code =? 551) || (code =? 553))%Z; [discriminate|].
  destruct ((400 <=? code) && (code <? 500))%Z; discriminate.
Qed.

Section RowFacts.
Variable W : Type.
Variable net : Net W.
Variable idna : str -> option str.

Lemma check_smtp_first_connection email h hs st s st' :
  check_smtp net email (h :: hs) st = (Ok s, st') ->
  exists l, connects (trace st') = connects (trace st) ++ h :: l.
Proof.
  unfold check_smtp. intros H.
  destruct (get_local_helo_returns _ net st) as (helo & st1 & Hh & T1).
  rewrite (bind_ok Hh) in H. cbn [try_hosts] in H.
  destruct (attempt net email helo h st1) as [[f|e] st2] eqn:Ea;
    [rewrite (bind_ok Ea) in H|rewrite (bind_raise Ea) in H; discriminate].
  pose proof (attempt_connects _ _ _ _ _ _ _ _ Ea) as C2.
  assert (C1 : connects (trace st1) = connects (trace st)).
  { rewrite T1, connects_app. simpl. apply app_nil_r. }
  destruct f as [s1|].
  - unfold ret in H. inversion H; subst. exists []. rewrite C2, C1. reflexivity.
  - destruct (try_hosts_emits _ net email helo hs _ _ _ H) as (evs & T3 & _).
    exists (connects evs). rewrite T3, connects_app, C2, C1, <- app_assoc. reflexivity.
Qed.

Lemma verify_row_shape cell st r st' :
  verify_row net idna cell st = (Ok r, st') ->
  Email r = strip cell
  /\ (DomainHasMX r = true -> SyntaxValid r = true)
  /\ (DomainHasMX r = false ->
      MailboxExists r = Unverifiable /\ connects (trace st') = connects (trace st))
  /\ (DomainHasMX r = true ->
      exists h l, connects (trace st') = connects (trace st) ++ h :: l).
Proof.
  unfold verify_row. destruct (check_syntax (strip cell)) eqn:Hsyn.
  - intros H.
    destruct (index (split_on "@" (strip cell)) 1 st) as [[domain|e] st0] eqn:Ei;
      [rewrite (bind_ok Ei) in H|rewrite (bind_raise Ei) in H; discriminate].
    assert (st0 = st) as ->.
    { unfold index in Ei. destruct (nth_error _ 1); inversion Ei; reflexivity. }
    destruct (check_mx_records_returns _ net idna domain st) as (mxr & st1 & Hmx & T1).
    rewrite (bind_ok Hmx) in H.
    assert (C1 : connects (trace st1) = connects (trace st)).
    { destruct (Resolver net (world st)).
      - rewrite T1, connects_app. simpl. apply app_nil_r.
      - destruct T1 as [-> _]. reflexivity. }
    destruct mxr as [[|h hs]|].
    + unfold bind, ret in H. inversion H; subst; clear H. cbn.
      repeat split; auto; discriminate.
    + destruct (check_smtp net (strip cell) (h :: hs) st1) as [[s|e] st2] eqn:Es;
        [rewrite (bind_ok (bind_ok Es)) in H|rewrite (bind_raise (bind_raise Es)) in H;
         discriminate].
      unfold ret in H. inversion H; subst; clear H. cbn.
      destruct (check_smtp_first_connection _ _ _ _ _ _ Es) as (l & C2).
      repeat split; auto; try discriminate.
      intros _. exists h, l. rewrite C2, C1. reflexivity.
    + unfold bind, ret in H. inversion H; subst; clear H. cbn.
      repeat split; auto; discriminate.
  - unfold ret. intros H. inversion H; subst; clear H. cbn.
    repeat split; auto; discriminate.
Qed.

(** X13. The fields of a row hang together beyond its overall status:
    [Email] is the stripped cell; [DomainHasMX] is set only for a valid
    syntax; without it the mailbox status stays [Unverifiable] and the row
    has opened no SMTP connection; with it at least one connection was
    attempted. *)
Theorem verify_row_fields cell st r st' :
  verify_row net idna cell st = (Ok r, st') ->
  Email r = strip cell
  /\ (DomainHasMX r = true -> SyntaxValid r = true)
  /\ (DomainHasMX r = false ->
      MailboxExists r = Unverifiable /\ connects (trace st') = connects (trace st))
  /\ (DomainHasMX r = true ->
      exists h l, connects (trace st') = connects (trace st) ++ h :: l).
Proof.
  intros H. exact (verify_row_shape _ _ _ _ H).
Qed.

(** X14. A row is [Valid] only on evidence: the address passed the syntax
    check, the DNS answered the lookup of the part after its [@], one of
    the hosts kept from that answer was asked RCPT TO for the address, and
    it replied 250 or 251. *)
Theorem verify_row_valid_sound cell st r st' :
  verify_row net idna cell st = (Ok r, st') ->
  OverallStatus_of r = Valid ->
  exists domain answers w0 hosts h code w w',
    check_syntax (Email r) = true
    /\ after_last "@" (Email r) = Some domain
    /\ resolve_MX net (_normalize_domain idna domain) (world st) = (Ok answers, w0)
    /\ mx_hosts answers = Some hosts
    /\ In h hosts
    /\ rcpt net h (Email r) w = (Ok code, w')
    /\ (code = 250 \/ code = 251)%Z.
Proof.
  unfold verify_row. destruct (check_syntax (strip cell)) eqn:Hsyn.
  - intros H Hv.
    destruct (check_syntax_one_at _ Hsyn) as (local & rest & E & Hl & Hr).
    assert (Hidx : index (W:=W) (split_on "@" (strip cell)) 1 st = (Ok rest, st)).
    { unfold index. rewrite E, (split_on_app _ _ _ Hl), (split_on_lacks _ _ Hr).
      reflexivity. }
    rewrite (bind_ok Hidx) in H.
    destruct (Resolver net (world st)) as [u|e0] eqn:Hc;
      [|rewrite (bind_ok (check_mx_records_no_resolver _ net idna rest _ _ Hc)) in H;
        unfold bind, ret in H; inversion H; subst; clear H; discriminate Hv].
    destruct (resolve_MX net (_normalize_domain idna rest) (world st))
      as [[answers|e] w0] eqn:Er.
    + rewrite (bind_ok (check_mx_records_answers _ _ _ _ _ _ _ _ Hc Er)) in H.
      destruct (mx_hosts answers) as [[|h0 hs]|] eqn:Eh.
      * unfold bind, ret in H. inversion H; subst; clear H. discriminate Hv.
      * match type of H with
        | bind _ _ ?s = _ =>
            destruct (check_smtp net (strip cell) (h0 :: hs) s) as [[s1|e] st2] eqn:Es
        end;
          [rewrite (bind_ok (bind_ok Es)) in H|rewrite (bind_raise (bind_raise Es)) in H;
           discriminate].
        unfold ret in H. inversion H; subst; clear H. cbn in Hv |- *.
        destruct s1; cbn in Hv; try discriminate Hv.
        destruct (check_smtp_answer _ net _ _ _ _ _ Es)
          as (h & code & w & w' & tr & Hin & Hrc & Hcl & _); [discriminate|].
        exists rest, answers, w0, (h0 :: hs), h, code, w, w'.
        repeat split; auto.
        -- rewrite E. apply after_last_app. exact Hr.
        -- apply classify_Exists_inv. symmetry. exact Hcl.
      * unfold bind, ret in H. inversion H; subst; clear H. discriminate Hv.
    + destruct (check_mx_records_raise_none _ net idna rest st _ _ Er) as (st1 & Hmx).
      rewrite (bind_ok Hmx) in H.
      unfold bind, ret in H. inversion H; subst; clear H. discriminate Hv.
  - unfold ret. intros H Hv. inversion H; subst; clear H. discriminate Hv.
Qed.

End RowFacts.

(* ================================================================= *)
(** * The upload route *)

Section AppMonadFacts.
Variable W : Type.

Lemma abind_ok A B (m : App W A) (k : A -> App W B) st a st1 :
  m st = (Ok a, st1) -> abind m k st = k a st1.
Proof. unfold abind. intros ->. reflexivity. Qed.

Lemma abind_raise A B (m : App W A) (k : A -> App W B) st e st1 :
  m st = (Raise e, st1) -> abind m k st = (Raise e, st1).
Proof. unfold abind. intros ->. reflexivity. Qed.

Lemma lift_inv A (m : M W A) st r st' :
  lift m st = (r, st') ->
  exists s', m (net_state st) = (r, s')
             /\ st' = {| net_state := s'; disk := disk st |}.
Proof.
  unfold lift. destruct (m (net_state st)) as [r0 s']. intros H.
  inversion H; subst. eauto.
Qed.

Lemma fs_call_inv A ev (op : W -> outcome A * W) st r st' :
  fs_call ev op st = (r, st') ->
  exists w', op (world (net_state st)) = (r, w')
             /\ st' = {| net_state := {| world := w'; trace := trace (net_state st) |};
                         disk := disk st ++ [ev] |}.
Proof.
  unfold fs_call. destruct (op (world (net_state st))) as [r0 w']. intros H.
  inversion H; subst. eauto.
Qed.

End AppMonadFacts.

Arguments abind_ok {W A B m k st a st1} _.
Arguments abind_raise {W A B m k st e st1} _.

Section RouteFacts.
Variable W : Type.
Variable net : Net W.
Variable fs : Fs W.
Variable idna : str -> option str.
Variable secure_filename : str -> str.

Lemma row_email_inv row st r st' :
  row_email (W:=W) row st = (r, st') ->
  st' = st
  /\ match r with
     | Ok cell => dict_get row s!"Email" = Some (Some cell)
     | Raise e => e = OtherException
                  /\ (dict_get row s!"Email" = None \/ dict_get row s!"Email" = Some None)
     end.
Proof.
  unfold row_email, araise, aret.
  destruct (dict_get row s!"Email") as [[cell|]|]; intros H; inversion H; subst; auto.
Qed.

(** The loop leaves the disk alone, and what it returns has one result per
    row, in order, for the stripped [Email] cell of that row. *)
Lemma verify_rows_results rows st results st' :
  verify_rows net idna rows st = (Ok results, st') ->
  disk st' = disk st
  /\ Forall2 (fun row r => exists cell,
                 dict_get row s!"Email" = Some (Some cell) /\ Email r = strip cell)
             rows results.
Proof.
  revert st results st'. induction rows as [|row rest IH]; intros st results st' H;
    cbn [verify_rows] in H.
  - unfold aret in H. inversion H; subst. split; [reflexivity|constructor].
  - destruct (row_email (W:=W) row st) as [[cell|e] st0] eqn:Ee;
      destruct (row_email_inv _ _ _ _ Ee) as (-> & Hcell);
      [rewrite (abind_ok Ee) in H|rewrite (abind_raise Ee) in H; discriminate].
    destruct (lift (verify_row net idna cell) st) as [[r|e] st1] eqn:Ev;
      [rewrite (abind_ok Ev) in H|rewrite (abind_raise Ev) in H; discriminate].
    apply lift_inv in Ev as (s1 & Ev & ->).
    match type of H with
    | abind (verify_rows _ _ _) _ ?s = _ =>
        destruct (verify_rows net idna rest s) as [[rs|e] st2] eqn:Er;
          [rewrite (abind_ok Er) in H|rewrite (abind_raise Er) in H; discriminate]
    end.
    apply IH in Er as (Hd & Hf). unfold aret in H. inversion H; subst.
    split; [exact Hd|]. constructor; [|exact Hf].
    exists cell. split; [exact Hcell|].
    exact (proj1 (verify_row_shape _ _ _ _ _ _ _ Ev)).
Qed.

Lemma verify_rows_disk rows st r st' :
  verify_rows net idna rows st = (r, st') -> disk st' = disk st.
Proof.
  revert st r st'. induction rows as [|row rest IH]; intros st r st' H;
    cbn [verify_rows] in H.
  - unfold aret in H. inversion H; subst. reflexivity.
  - destruct (row_email (W:=W) row st) as [[cell|e] st0] eqn:Ee;
      destruct (row_email_inv _ _ _ _ Ee) as (-> & _);
      [rewrite (abind_ok Ee) in H|rewrite (abind_raise Ee) in H; inversion H; reflexivity].
    destruct (lift (verify_row net idna cell) st) as [[r1|e] st1] eqn:Ev;
      destruct (lift_inv _ _ _ _ _ _ Ev) as (s1 & _ & ->);
      [rewrite (abind_ok Ev) in H|rewrite (abind_raise Ev) in H; inversion H; reflexivity].
    match type of H with
    | abind (verify_rows _ _ _) _ ?s = _ =>
        destruct (verify_rows net idna rest s) as [[rs|e] st2] eqn:Er;
          pose proof (IH _ _ _ Er) as Hd;
          [rewrite (abind_ok Er) in H|rewrite (abind_raise Er) in H]
    end; unfold aret in H; inversion H; subst; exact Hd.
Qed.

(** X2. When a connection can only fail with an SMTP exception or a socket
    error, the loop over the rows of the file produces one result per row
    exactly when every row has a string in its [Email] cell. A row whose
    cell is [None] (a line shorter than the header) makes
    [row['Email'].strip()] raise, and that exception ends the loop,
    whatever the network does. *)
Theorem verify_rows_returns rows st :
  (forall h w e w', SMTP net h w = (Raise e, w') -> transport_or_protocol e = true) ->
  if forallb has_email_cell rows
  then exists results st',
         verify_rows net idna rows st = (Ok results, st')
         /\ length results = length rows
  else exists st', verify_rows net idna rows st = (Raise OtherException, st').
Proof.
  intros Hnet. revert st. induction rows as [|row rest IH]; intros st;
    cbn [verify_rows forallb].
  - exists [], st. split; reflexivity.
  - unfold has_email_cell at 1, row_email.
    destruct (dict_get row s!"Email") as [[cell|]|]; cbn [andb];
      [|exists st; reflexivity|exists st; reflexivity].
    destruct (verify_row_returns _ net idna Hnet cell (net_state st)) as (r & s1 & Hr).
    assert (Hl : lift (verify_row net idna cell) st
                 = (Ok r, {| net_state := s1; disk := disk st |})).
    { unfold lift. rewrite Hr. reflexivity. }
    assert (He : aret (W:=W) cell st = (Ok cell, st)) by reflexivity.
    rewrite (abind_ok He), (abind_ok Hl).
    specialize (IH {| net_state := s1; disk := disk st |}).
    destruct (forallb has_email_cell rest).
    + destruct IH as (rs & st2 & Hrs & Hlen).
      exists (r :: rs), st2. rewrite (abind_ok Hrs). split; [reflexivity|].
      cbn [length]. rewrite Hlen. reflexivity.
    + destruct IH as (st2 & Hrs). exists st2. rewrite (abind_raise Hrs). reflexivity.
Qed.

Lemma read_and_verify_disk file st r st' :
  read_and_verify net idna file st = (r, st') -> disk st' = disk st.
Proof.
  unfold read_and_verify.
  destruct (csv_fieldnames file) as [[names|]|e];
    try (unfold araise; intros H; inversion H; reflexivity).
  destruct (negb (existsb (str_eqb s!"Email") names)).
  - unfold aret. intros H. inversion H. reflexivity.
  - intros H.
    destruct (verify_rows net idna (csv_rows file) st) as [[rs|e] st1] eqn:Er;
      pose proof (verify_rows_disk _ _ _ _ Er) as Hd;
      [rewrite (abind_ok Er) in H|rewrite (abind_raise Er) in H; inversion H; subst; exact Hd].
    destruct (csv_error file); unfold araise, aret in H; inversion H; subst; exact Hd.
Qed.

Lemma read_and_verify_results file st results st' :
  read_and_verify net idna file st = (Ok (inr results), st') ->
  Forall2 (fun row r => exists cell,
              dict_get row s!"Email" = Some (Some cell) /\ Email r = strip cell)
          (csv_rows file) results
  /\ csv_error file = None
  /\ exists names, csv_fieldnames file = Ok (Some names)
                   /\ existsb (str_eqb s!"Email") names = true.
Proof.
  unfold read_and_verify.
  destruct (csv_fieldnames file) as [[names|]|e];
    try (unfold araise; intros H; discriminate H).
  destruct (existsb (str_eqb s!"Email") names) eqn:En; cbn [negb].
  - intros H.
    destruct (verify_rows net idna (csv_rows file) st) as [[rs|e] st1] eqn:Er;
      [rewrite (abind_ok Er) in H|rewrite (abind_raise Er) in H; discriminate].
    destruct (csv_error file); unfold araise, aret in H; [discriminate|].
    inversion H; subst. apply verify_rows_results in Er as [_ Hf]. eauto.
  - unfold aret. intros H. discriminate H.
Qed.

Lemma read_and_verify_early file st resp st' :
  read_and_verify net idna file st = (Ok (inl resp), st') ->
  resp = Plain s!"Error: Input CSV must contain an 'Email' column." 400 /\ st' = st.
Proof.
  unfold read_and_verify.
  destruct (csv_fieldnames file) as [[names|]|e];
    try (unfold araise; intros H; discriminate H).
  destruct (negb (existsb (str_eqb s!"Email") names)).
  - unfold aret. intros H. inversion H. auto.
  - intros H.
    destruct (verify_rows net idna (csv_rows file) st) as [[rs|e] st1] eqn:Er;
      [rewrite (abind_ok Er) in H|rewrite (abind_raise Er) in H; discriminate].
    destruct (csv_error file); unfold araise, aret in H; discriminate.
Qed.

(** The route on a [.csv] upload, as the steps after the checks of the
    request. *)
Lemma verify_emails_csv file :
  is_csv_upload (Some file) = true ->
  verify_emails net fs idna secure_filename (Some file)
  = let name := secure_filename (filename file) in
    let input_path := os_path_join UPLOAD_FOLDER name in
    let output_path := os_path_join UPLOAD_FOLDER (s!"results_" ++ name) in
    abind (fs_call (FsSave input_path) (file_save fs input_path)) (fun _ =>
    abind (acatch (read_and_verify net idna file)
                  (fun e => aret (inl (ErrorOccurred e)))) (fun r =>
    match r with
    | inl early => aret (early, None)
    | inr results =>
        abind (fs_call (FsWrite output_path (map report_row results))
                       (write_rows fs output_path (map report_row results))) (fun _ =>
        aret (SendFile output_path (s!"results_" ++ name),
              Some (input_path, output_path)))
    end)).
Proof.
  unfold is_csv_upload, verify_emails. intros H. rewrite H.
  apply andb_true_iff in H as [H _].
  destruct (str_eqb (filename file) []); [discriminate H|reflexivity].
Qed.

(** What the middle step can give: the rows, the 400 of the header test,
    or the 500 of the handler; the disk is as before in every case. *)
Lemma guarded_read file st r st' :
  acatch (read_and_verify net idna file)
         (fun e => aret (inl (ErrorOccurred e))) st = (r, st') ->
  disk st' = disk st
  /\ exists v, r = Ok v
     /\ match v with
        | inr results => read_and_verify net idna file st = (Ok (inr results), st')
        | inl resp =>
            resp = Plain s!"Error: Input CSV must contain an 'Email' column." 400
            \/ exists e, resp = ErrorOccurred e
        end.
Proof.
  unfold acatch. intros H.
  destruct (read_and_verify net idna file st) as [[[resp|results]|e] st1] eqn:Er;
    pose proof (read_and_verify_disk _ _ _ _ Er) as Hd;
    unfold aret in H; inversion H; subst; (split; [exact Hd|]).
  - exists (inl resp). split; [reflexivity|].
    left. exact (proj1 (read_and_verify_early _ _ _ _ Er)).
  - exists (inr results). auto.
  - exists (inl (ErrorOccurred e)). split; [reflexivity|]. right. eauto.
Qed.

Lemma verify_emails_rejects files st :
  is_csv_upload files = false ->
  exists body,
    verify_emails net fs idna secure_filename files st = (Ok (Plain body 400, None), st).
Proof.
  destruct files as [file|]; cbn [is_csv_upload]; intros H.
  - unfold verify_emails. destruct (str_eqb (filename file) []) eqn:E.
    + eexists. reflexivity.
    + cbn [negb andb] in *. rewrite H. eexists. reflexivity.
  - eexists. reflexivity.
Qed.

(** X16. The checks of the request come before any effect. Without a file
    part, with an empty file name or with a name that does not end in
    [.csv], the answer is a 400 and neither the disk nor the network has
    been touched; otherwise the first thing done is to save the upload
    under [uploads/] with its secured name. *)
Theorem verify_emails_request_checks files st :
  (is_csv_upload files = false ->
   exists body,
     verify_emails net fs idna secure_filename files st = (Ok (Plain body 400, None), st))
  /\ (is_csv_upload files = true ->
      forall r st',
        verify_emails net fs idna secure_filename files st = (r, st') ->
        exists file tail,
          files = Some file
          /\ disk st' = disk st
               ++ FsSave (os_path_join UPLOAD_FOLDER (secure_filename (filename file)))
                  :: tail).
Proof.
  split; [apply verify_emails_rejects|].
  - intros Hcsv r st' H. destruct files as [file|]; [|discriminate Hcsv].
    exists file.
    cut (exists tail, disk st' = disk st
           ++ FsSave (os_path_join UPLOAD_FOLDER (secure_filename (filename file))) :: tail).
    { intros (tail & G). exists tail. auto. }
    rewrite (verify_emails_csv _ Hcsv) in H. cbv zeta in H.
    match type of H with
    | abind (fs_call ?ev ?op) _ _ = _ =>
        destruct (fs_call ev op st) as [[[]|e] st1] eqn:Es;
          destruct (fs_call_inv _ _ _ _ _ _ _ Es) as (w1 & _ & Est1);
          [rewrite (abind_ok Es) in H|rewrite (abind_raise Es) in H]
    end.
    + match type of H with
      | abind ?m _ _ = _ => destruct (m st1) as [r2 st2] eqn:Eg
      end.
      destruct (guarded_read _ _ _ _ Eg) as (Hd & v & -> & Hv).
      rewrite (abind_ok Eg) in H. destruct v as [resp|results].
      * unfold aret in H. inversion H; subst. exists []. rewrite Hd. reflexivity.
      * match type of H with
        | abind (fs_call ?ev ?op) _ _ = _ =>
            destruct (fs_call ev op st2) as [[[]|e] st3] eqn:Ew;
              destruct (fs_call_inv _ _ _ _ _ _ _ Ew) as (w3 & _ & Est3);
              [rewrite (abind_ok Ew) in H|rewrite (abind_raise Ew) in H]
        end; unfold aret in H; inversion H; subst; cbn [disk];
          rewrite Hd; cbn [disk]; rewrite <- app_assoc; eexists; reflexivity.
    + inversion H; subst. exists []. reflexivity.
Qed.

(** X17. When the route sends a file, it is [uploads/results_<name>], offered
    under the name [results_<name>]; the table written to it has one row
    per row of the CSV, in the order of the CSV, each for the stripped
    [Email] cell of its row; the upload was saved before and the table
    written after, and the cleanup is registered for these two files. *)
Theorem verify_emails_report file st path download_name registered st' :
  verify_emails net fs idna secure_filename (Some file) st
  = (Ok (SendFile path download_name, registered), st') ->
  let name := secure_filename (filename file) in
  let input_path := os_path_join UPLOAD_FOLDER name in
  download_name = s!"results_" ++ name
  /\ path = os_path_join UPLOAD_FOLDER download_name
  /\ registered = Some (input_path, path)
  /\ exists results,
       disk st' = disk st ++ [FsSave input_path; FsWrite path (map report_row results)]
       /\ Forall2 (fun row r => exists cell,
                     dict_get row s!"Email" = Some (Some cell) /\ Email r = strip cell)
                  (csv_rows file) results.
Proof.
  intros H name input_path.
  destruct (is_csv_upload (Some file)) eqn:Hcsv.
  - rewrite (verify_emails_csv _ Hcsv) in H. cbv zeta in H.
    fold name in H. fold input_path in H.
    match type of H with
    | abind (fs_call ?ev ?op) _ _ = _ =>
        destruct (fs_call ev op st) as [[[]|e] st1] eqn:Es;
          destruct (fs_call_inv _ _ _ _ _ _ _ Es) as (w1 & _ & Est1);
          [rewrite (abind_ok Es) in H|rewrite (abind_raise Es) in H; discriminate]
    end.
    match type of H with
    | abind ?m _ _ = _ => destruct (m st1) as [r2 st2] eqn:Eg
    end.
    destruct (guarded_read _ _ _ _ Eg) as (Hd & v & -> & Hv).
    rewrite (abind_ok Eg) in H. destruct v as [resp|results].
    + unfold aret in H. inversion H; subst.
      destruct Hv as [Hv|(e & Hv)]; discriminate Hv.
    + match type of H with
      | abind (fs_call ?ev ?op) _ _ = _ =>
          destruct (fs_call ev op st2) as [[[]|e] st3] eqn:Ew;
            destruct (fs_call_inv _ _ _ _ _ _ _ Ew) as (w3 & _ & Est3);
            [rewrite (abind_ok Ew) in H|rewrite (abind_raise Ew) in H; discriminate]
      end.
      unfold aret in H. inversion H; subst. repeat split.
      exists results. split.
      * cbn [disk]. rewrite Hd. cbn [disk]. rewrite <- app_assoc. reflexivity.
      * exact (proj1 (read_and_verify_results _ _ _ _ Hv)).
  - destruct (verify_emails_rejects (Some file) st Hcsv) as (body & E).
    rewrite E in H. discriminate H.
Qed.

(** X18. A [.csv] upload that does not end in [send_file] is left behind:
    when the answer is the 400 of the header test or the 500 of the
    handler, nothing has been written, no cleanup is registered, and the
    saved upload is the only file operation of the request. *)
Theorem verify_emails_failure_keeps_upload file st resp registered st' :
  is_csv_upload (Some file) = true ->
  verify_emails net fs idna secure_filename (Some file) st = (Ok (resp, registered), st') ->
  (forall path download_name, resp <> SendFile path download_name) ->
  registered = None
  /\ disk st' = disk st
       ++ [FsSave (os_path_join UPLOAD_FOLDER (secure_filename (filename file)))]
  /\ (resp = Plain s!"Error: Input CSV must contain an 'Email' column." 400
      \/ exists e, resp = ErrorOccurred e).
Proof.
  intros Hcsv H Hns. rewrite (verify_emails_csv _ Hcsv) in H. cbv zeta in H.
  match type of H with
  | abind (fs_call ?ev ?op) _ _ = _ =>
      destruct (fs_call ev op st) as [[[]|e] st1] eqn:Es;
        destruct (fs_call_inv _ _ _ _ _ _ _ Es) as (w1 & _ & Est1);
        [rewrite (abind_ok Es) in H|rewrite (abind_raise Es) in H; discriminate]
  end.
  match type of H with
  | abind ?m _ _ = _ => destruct (m st1) as [r2 st2] eqn:Eg
  end.
  destruct (guarded_read _ _ _ _ Eg) as (Hd & v & -> & Hv).
  rewrite (abind_ok Eg) in H. destruct v as [early|results].
  - unfold aret in H. inversion H; subst.
    split; [reflexivity|]. split; [rewrite Hd; reflexivity|exact Hv].
  - exfalso.
    match type of H with
    | abind (fs_call ?ev ?op) _ _ = _ =>
        destruct (fs_call ev op st2) as [[[]|e] st3] eqn:Ew;
          [rewrite (abind_ok Ew) in H|rewrite (abind_raise Ew) in H; discriminate]
    end.
    unfold aret in H. inversion H; subst. eapply Hns. reflexivity.
Qed.

(** X19. The header test. When the saved upload has a header without an
    [Email] column the answer is the 400 that says so; when it has no header
    at all (an empty file) or reading it raises, the answer is the 500 of
    the handler. In each case no row is verified: the network trace is the
    one before the request. *)
Theorem verify_emails_header file st w1 :
  is_csv_upload (Some file) = true ->
  let input_path := os_path_join UPLOAD_FOLDER (secure_filename (filename file)) in
  file_save fs input_path (world (net_state st)) = (Ok tt, w1) ->
  match csv_fieldnames file with
  | Ok (Some names) => existsb (str_eqb s!"Email") names = false
  | _ => True
  end ->
  verify_emails net fs idna secure_filename (Some file) st
  = (Ok (match csv_fieldnames file with
         | Ok (Some _) => Plain s!"Error: Input CSV must contain an 'Email' column." 400
         | Ok None => ErrorOccurred OtherException
         | Raise e => ErrorOccurred e
         end, None),
     {| net_state := {| world := w1; trace := trace (net_state st) |};
        disk := disk st ++ [FsSave input_path] |}).
Proof.
  intros Hcsv input_path Hsave Hhead.
  rewrite (verify_emails_csv _ Hcsv). cbv zeta. fold input_path.
  assert (Es : fs_call (FsSave input_path) (file_save fs input_path) st
               = (Ok tt, {| net_state := {| world := w1; trace := trace (net_state st) |};
                            disk := disk st ++ [FsSave input_path] |})).
  { unfold fs_call. rewrite Hsave. reflexivity. }
  rewrite (abind_ok Es). unfold abind, acatch, read_and_verify.
  destruct (csv_fieldnames file) as [[names|]|e].
  - rewrite Hhead. reflexivity.
  - reflexivity.
  - reflexivity.
Qed.

(** X20. The registered cleanup never raises and touches nothing but the two
    files. It removes the upload, then the report; when removing the upload
    raises, the report is not removed. *)
Theorem cleanup_removes input_path output_path st r st' :
  cleanup fs input_path output_path st = (r, st') ->
  r = Ok tt
  /\ trace (net_state st') = trace (net_state st)
  /\ disk st' = disk st
       ++ match fst (os_remove fs input_path (world (net_state st))) with
          | Ok _ => [FsRemove input_path; FsRemove output_path]
          | Raise _ => [FsRemove input_path]
          end.
Proof.
  unfold cleanup, acatch, abind, fs_call, aret.
  destruct (os_remove fs input_path (world (net_state st))) as [[[]|e] w1]; cbn [fst].
  - cbn [net_state world trace disk].
    destruct (os_remove fs output_path w1) as [[[]|e] w2];
      intros H; inversion H; subst; cbn [net_state trace disk];
      rewrite <- app_assoc; auto.
  - intros H. inversion H; subst. auto.
Qed.

End RouteFacts.

(** X21. The report loses nothing: two results with the same five strings
    in their rows are the same result. *)
Theorem report_row_injective r1 r2 : report_row r1 = report_row r2 -> r1 = r2.
Proof.
  destruct r1 as [e1 s1 d1 m1 o1], r2 as [e2 s2 d2 m2 o2]. unfold report_row. cbn.
  intros H. inversion H as [[He Hs Hd Hm Ho]]. subst e2.
  assert (s1 = s2) as -> by (destruct s1, s2; try reflexivity; discriminate Hs).
  assert (d1 = d2) as -> by (destruct d1, d2; try reflexivity; discriminate Hd).
  assert (m1 = m2) as -> by (destruct m1, m2; try reflexivity; discriminate Hm).
  assert (o1 = o2) as -> by (destruct o1, o2; try reflexivity; discriminate Ho).
  reflexivity.
Qed.

(* ================================================================= *)
(** ** The further properties at concrete inputs *)


(** With the upgrade going through, the second EHLO is sent. *)
Example session_with_tls :
  let h := s!"mx.flaky.test" in
  let helo := s!"probe.example.org" in
  session tls_net s!"user@flaky.test" helo h start
  = (Ok Exists,
     {| world := tt;
        trace := [EvConnect h; EvEhlo h; EvStarttls h; EvEhlo h;
                  EvMail h s!"no-reply@example.org"; EvRcpt h s!"user@flaky.test";
                  EvQuit h] |}).
Proof. vm_compute. reflexivity. Qed.

(** X2 on the two rows of [test_upload] and on [short_rows], in the scripted
    world, whose connections fail with socket errors only. *)
Lemma verify_rows_returns_example :
  (exists results st',
      verify_rows test_net test_idna (csv_rows test_upload) app_start = (Ok results, st')
      /\ length results = 2)
  /\ (exists st',
        verify_rows test_net test_idna short_rows app_start = (Raise OtherException, st')).
Proof.
  assert (Hnet : forall h w e w',
             SMTP test_net h w = (Raise e, w') -> transport_or_protocol e = true).
  { intros h w e w' H. simpl in H. unfold test_connect in H.
    destruct (str_eqb h s!"down.test"); inversion H; reflexivity. }
  split.
  - exact (verify_rows_returns unit test_net test_idna (csv_rows test_upload) app_start Hnet).
  - exact (verify_rows_returns unit test_net test_idna short_rows app_start Hnet).
Defined.

(** X5 on [broken.test], which hangs up at the greeting. *)
Lemma attempt_closes_connection_example :
  let h := s!"broken.test" in
  exists evs,
    trace (snd (attempt test_net s!"user@dead.test" s!"probe.example.org" h start))
    = trace start ++ EvConnect h :: evs ++ [EvQuit h]
    /\ Forall (before_quit h) evs.
Proof.
  cbv zeta.
  exact (attempt_closes_connection unit test_net s!"user@dead.test" s!"probe.example.org"
           s!"broken.test" start _ _ eq_refl).
Defined.

(** X6 on [flaky.test]: the second host answers 251. *)
Lemma check_smtp_answer_sound_example :
  let hosts := [s!"down.test"; s!"mx.flaky.test"] in
  let run := check_smtp test_net s!"user@flaky.test" hosts start in
  fst run = Ok Exists
  /\ exists h code w w' tr,
       In h hosts /\ rcpt test_net h s!"user@flaky.test" w = (Ok code, w')
       /\ Exists = classify code /\ connects (trace (snd run)) = tr ++ [h].
Proof.
  cbv zeta. split; [vm_compute; reflexivity|].
  apply (check_smtp_answer_sound unit test_net s!"user@flaky.test"
           [s!"down.test"; s!"mx.flaky.test"] start Exists).
  - vm_compute; reflexivity.
  - discriminate.
Defined.

(** X7 on [odd.test]: its second host raises at the connection. *)
Lemma check_smtp_propagates_connect_error_example :
  let hosts := [s!"down.test"; s!"odd.test"; s!"mx1.good.test"] in
  let run := check_smtp odd_net s!"user@odd.test" hosts start in
  fst run = Raise OtherException
  /\ connects (trace (snd run)) = [s!"down.test"; s!"odd.test"].
Proof.
  cbv zeta.
  set (email := s!"user@odd.test").
  set (helo := s!"probe.example.org").
  set (st1 := snd (get_local_helo odd_net start)).
  set (st2 := after_round odd_net email helo s!"down.test" st1).
  assert (E : check_smtp odd_net email
                ([s!"down.test"] ++ s!"odd.test" :: [s!"mx1.good.test"]) start
              = (Raise OtherException,
                 {| world := tt; trace := trace st2 ++ [EvConnect s!"odd.test"] |})).
  { apply (check_smtp_propagates_connect_error unit odd_net email
             [s!"down.test"] s!"odd.test" [s!"mx1.good.test"]
             start helo st1 st2 OtherException tt).
    - vm_compute; reflexivity.
    - apply skipped_cons with (st1 := st2); [vm_compute; reflexivity|apply skipped_nil].
    - vm_compute; reflexivity.
    - reflexivity. }
  cbn [app] in E. rewrite E. split; [reflexivity|vm_compute; reflexivity].
Defined.

(** X8 on [mx.flaky.test]: the upgrade fails with an SMTP exception. *)
Lemma dialogue_failed_starttls_example :
  let server := s!"mx.flaky.test" in
  let helo := s!"probe.example.org" in
  dialogue test_net server s!"user@flaky.test" helo start
  = exchange_tail test_net server s!"user@flaky.test" helo
      {| world := tt; trace := [EvEhlo server; EvStarttls server] |}.
Proof.
  cbv zeta.
  exact (dialogue_failed_starttls unit test_net s!"mx.flaky.test" s!"user@flaky.test"
           s!"probe.example.org" start 250%Z [s!"starttls"] tt SMTPException tt
           eq_refl eq_refl eq_refl).
Defined.

(** X11 on [good.test]. *)
Lemma check_mx_records_hosts_example :
  let answers := [mx 20 "mx2.good.test."; mx 10 "mx1.good.test."; mx 10 "mx0.good.test."] in
  let hosts := [s!"mx1.good.test"; s!"mx0.good.test"; s!"mx2.good.test"] in
  hosts <> []
  /\ length hosts <= length answers
  /\ forall h, In h hosts <->
               h <> [] /\ ends_with "." h = false
               /\ exists r n, In r answers /\ exchange r = h ++ dots n.
Proof.
  cbv zeta.
  apply (check_mx_records_hosts unit test_net test_idna s!"good.test" start _ tt _
           (snd (check_mx_records test_net test_idna s!"good.test" start))).
  - vm_compute; reflexivity.
  - vm_compute; reflexivity.
Defined.

(** X12 on [nullmx.test]. *)
Lemma check_mx_records_none_iff_example :
  fst (check_mx_records test_net test_idna s!"nullmx.test" start) = Ok None
  <-> (exists e, Resolver test_net (world start) = Raise e)
      \/ forall r, In r [mx 0 "."] -> exists n, exchange r = dots n.
Proof.
  apply (check_mx_records_none_iff unit test_net test_idna s!"nullmx.test" start _ tt).
  vm_compute; reflexivity.
Defined.

(** Without a resolver configuration nothing is asked: [good.test], for
    which the DNS has three exchanges, gets [None], and its row is reported
    without MX and without any lookup or connection. *)
Example check_mx_records_bare :
  check_mx_records bare_net test_idna s!"good.test" start = (Ok None, start).
Proof. vm_compute. reflexivity. Qed.

Example verify_row_bare :
  verify_row bare_net test_idna s!"user@good.test" start
  = (Ok {| Email := s!"user@good.test"; SyntaxValid := true; DomainHasMX := false;
           MailboxExists := Unverifiable; OverallStatus_of := RiskyOrInvalid |},
     start).
Proof. vm_compute. reflexivity. Qed.

(** X13 on the row of [user@good.test]. *)
Lemma verify_row_fields_example :
  let run := verify_row test_net test_idna s!" user@good.test " start in
  exists r, fst run = Ok r
    /\ Email r = strip s!" user@good.test "
    /\ (DomainHasMX r = true -> SyntaxValid r = true)
    /\ (DomainHasMX r = false ->
        MailboxExists r = Unverifiable
        /\ connects (trace (snd run)) = connects (trace start))
    /\ (DomainHasMX r = true ->
        exists h l, connects (trace (snd run)) = connects (trace start) ++ h :: l).
Proof.
  cbv zeta.
  exists {| Email := s!"user@good.test"; SyntaxValid := true; DomainHasMX := true;
            MailboxExists := Exists; OverallStatus_of := Valid |}.
  split; [vm_compute; reflexivity|].
  apply (verify_row_fields unit test_net test_idna s!" user@good.test " start).
  vm_compute; reflexivity.
Defined.

(** X14 on the same row. *)
Lemma verify_row_valid_sound_example :
  let r := {| Email := s!"user@good.test"; SyntaxValid := true; DomainHasMX := true;
              MailboxExists := Exists; OverallStatus_of := Valid |} in
  exists domain answers w0 hosts h code w w',
    check_syntax (Email r) = true
    /\ after_last "@" (Email r) = Some domain
    /\ resolve_MX test_net (_normalize_domain test_idna domain) (world start)
       = (Ok answers, w0)
    /\ mx_hosts answers = Some hosts
    /\ In h hosts
    /\ rcpt test_net h (Email r) w = (Ok code, w')
    /\ (code = 250 \/ code = 251)%Z.
Proof.
  cbv zeta.
  apply (verify_row_valid_sound unit test_net test_idna s!" user@good.test " start _
           (snd (verify_row test_net test_idna s!" user@good.test " start))).
  - vm_compute; reflexivity.
  - reflexivity.
Defined.

(** X15 on [user@example.com]. *)
Lemma check_syntax_charset_example :
  exists body,
    (s!"user@example.com" = body \/ s!"user@example.com" = body ++ [LF])
    /\ forallb (fun c => is_local_char c || Ascii.eqb c "@") body = true.
Proof.
  apply check_syntax_charset. vm_compute; reflexivity.
Defined.

(** X17 on an upload of two addresses. *)
Lemma verify_emails_report_example :
  let run := verify_emails test_net test_fs test_idna (fun name => name)
               (Some test_upload) app_start in
  fst run = Ok (SendFile s!"uploads/results_list.csv" s!"results_list.csv",
                Some (s!"uploads/list.csv", s!"uploads/results_list.csv"))
  /\ exists results,
       disk (snd run) = disk app_start
         ++ [FsSave s!"uploads/list.csv";
             FsWrite s!"uploads/results_list.csv" (map report_row results)]
       /\ Forall2 (fun row r => exists cell,
                     dict_get row s!"Email" = Some (Some cell) /\ Email r = strip cell)
                  (csv_rows test_upload) results.
Proof.
  cbv zeta. split; [vm_compute; reflexivity|].
  refine (proj2 (proj2 (proj2
    (verify_emails_report unit test_net test_fs test_idna (fun name => name)
       test_upload app_start s!"uploads/results_list.csv" s!"results_list.csv" _ _ _)))).
  vm_compute; reflexivity.
Defined.

(** X18 on an upload whose header has no [Email] column. *)
Lemma verify_emails_failure_keeps_upload_example :
  let run := verify_emails test_net test_fs test_idna (fun name => name)
               (Some no_email_upload) app_start in
  fst run = Ok (Plain s!"Error: Input CSV must contain an 'Email' column." 400, None)
  /\ disk (snd run) = [FsSave s!"uploads/names.csv"].
Proof.
  cbv zeta. split; [vm_compute; reflexivity|].
  exact (proj1 (proj2
    (verify_emails_failure_keeps_upload unit test_net test_fs test_idna (fun name => name)
       no_email_upload app_start
       (Plain s!"Error: Input CSV must contain an 'Email' column." 400) None
       (snd (verify_emails test_net test_fs test_idna (fun name => name)
               (Some no_email_upload) app_start))
       eq_refl eq_refl
       (fun path download_name (H : Plain _ _ = SendFile path download_name) =>
          eq_ind (Plain s!"Error: Input CSV must contain an 'Email' column." 400)
                 (fun r => match r with Plain _ _ => True | _ => False end)
                 I _ H)))).
Defined.

(** X19 on an empty file. *)
Lemma verify_emails_header_example :
  verify_emails test_net test_fs test_idna (fun name => name) (Some empty_upload) app_start
  = (Ok (ErrorOccurred OtherException, None),
     {| net_state := {| world := tt; trace := [] |};
        disk := [FsSave s!"uploads/empty.csv"] |}).
Proof.
  exact (verify_emails_header unit test_net test_fs test_idna (fun name => name)
           empty_upload app_start tt eq_refl eq_refl I).
Defined.

(** X20 on the two files of the example upload. *)
Lemma cleanup_removes_example :
  let run := cleanup test_fs s!"uploads/list.csv" s!"uploads/results_list.csv" app_start in
  fst run = Ok tt
  /\ trace (net_state (snd run)) = []
  /\ disk (snd run) = [FsRemove s!"uploads/list.csv"; FsRemove s!"uploads/results_list.csv"].
Proof.
  cbv zeta.
  exact (cleanup_removes unit test_fs s!"uploads/list.csv" s!"uploads/results_list.csv"
           app_start _ _ eq_refl).
Defined.

(** X21 on two ways of writing one result. *)
Lemma report_row_injective_example :
  {| Email := strip s!" a@b.c "; SyntaxValid := check_syntax s!"a@b.c"; DomainHasMX := false;
     MailboxExists := Unverifiable; OverallStatus_of := RiskyOrInvalid |}
  = {| Email := s!"a@b.c"; SyntaxValid := true; DomainHasMX := false;
       MailboxExists := Unverifiable; OverallStatus_of := RiskyOrInvalid |}.
Proof.
  apply report_row_injective. vm_compute; reflexivity.
Defined.
